(** * simple-tagged-error: the [TaggedError] factory of [src/index.ts]

    The factory returns an anonymous class extending the host's [Error].
    Everything it does is object manipulation: it allocates a class and its
    prototype object, and the class constructor builds an error object,
    defines [_tag] on it, resets its prototype, merges the caller's
    properties with [Object.assign] and assigns [name].

    The development embeds that code over a small model of the ECMAScript
    object store: a heap of objects with a [[Prototype]] link and an ordered
    list of own properties carrying their attributes, with [[Get]],
    [[Set]], [CreateDataProperty], [instanceof], the [Error] constructor,
    [Object.setPrototypeOf] and [Object.assign] written after ECMA-262.

    Scope of the model: property keys are strings; properties are data
    properties, plus the [__proto__] accessor of [Object.prototype]; every
    object is extensible. What the host adds to a fresh error besides
    [message] is an argument of the constructor ([host]): the captured
    trace under [stack], and on some hosts the position of the throw site.
    The statements that take a [trace] are about the host that adds the
    trace only, as a data property; the statements that take a [host] hold
    for every host whose fields are writable, non-enumerable data
    properties ([host_ok]). A host that exposes [stack] through an own
    getter and setter is not covered, and neither is a property map with
    getters. *)

From Stdlib Require Import String ZArith List Bool Arith Lia.
From stdpp Require Import base list.
Import ListNotations.

Local Open Scope string_scope.
Local Open Scope list_scope.

(** ** Values, properties, objects and the heap *)

(** Heap locations. *)
Abbreviation loc := nat (only parsing).

Inductive value :=
| VUndefined
| VNull
| VBool (b : bool)
| VNum (n : Z)
| VStr (s : string)
| VObj (l : loc).

(** A property is a data property with its [[Writable]], [[Enumerable]]
    and [[Configurable]] attributes, or the one built-in accessor the code
    can meet: the [__proto__] getter/setter pair of [Object.prototype]
    (not enumerable). User-defined accessors are outside the model. *)
Inductive prop :=
| Data (v : value) (writable enumerable configurable : bool)
| ProtoAccessor.

(** What an object is when called with [new]: nothing, the [Error]
    intrinsic, a class made by [TaggedError], which closes over [tag], or
    a class [class C extends V {}] of the client, whose constructor only
    forwards to its parent. *)
Inductive kind :=
| Plain
| ErrorConstructor
| TaggedClass (tag : string)
| Subclass.

Record obj := mkObj {
  proto : option loc;
  okind : kind;
  props : list (string * prop)
}.

Abbreviation heap := (list obj) (only parsing).

Inductive error := TypeError.

(** A completion record: normal with a value, or abrupt with a thrown
    error; both carry the heap as it is at that point. *)
Inductive completion (A : Type) :=
| Normal (a : A) (h : heap)
| Throw (e : error) (h : heap).
Arguments Normal {A} a h.
Arguments Throw {A} e h.

Definition M (A : Type) := heap -> completion A.

Definition ret {A} (a : A) : M A := fun h => Normal a h.

Definition bind {A B} (m : M A) (f : A -> M B) : M B :=
  fun h => match m h with
           | Normal a h' => f a h'
           | Throw e h' => Throw e h'
           end.

Notation "'let*' x ':=' m 'in' k" := (bind m (fun x => k))
  (at level 10, x name, m at level 100, k at level 200).
Notation "m ;; k" := (bind m (fun _ => k))
  (at level 100, k at level 200, right associativity).

Definition heap_of {A} (c : completion A) : heap :=
  match c with Normal _ h => h | Throw _ h => h end.

(** ** Own properties *)

Fixpoint lookup_prop (k : string) (ps : list (string * prop)) : option prop :=
  match ps with
  | [] => None
  | (k', p) :: ps' => if String.eqb k k' then Some p else lookup_prop k ps'
  end.

(** Replace the property in place when the key exists, append it
    otherwise: a new key comes last in [[OwnPropertyKeys]] order. (ECMA-262
    lists array-index keys first; the model keeps them in creation order
    like the others, and no statement below depends on where they stand.) *)
Fixpoint store_prop (k : string) (p : prop) (ps : list (string * prop))
  : list (string * prop) :=
  match ps with
  | [] => [(k, p)]
  | (k', p') :: ps' =>
      if String.eqb k k' then (k, p) :: ps' else (k', p') :: store_prop k p ps'
  end.

Definition get_own (o : obj) (k : string) : option prop := lookup_prop k (props o).

Definition set_own (o : obj) (k : string) (p : prop) : obj :=
  mkObj (proto o) (okind o) (store_prop k p (props o)).

Definition set_proto (o : obj) (p : option loc) : obj :=
  mkObj p (okind o) (props o).

Definition is_enumerable (p : prop) : bool :=
  match p with Data _ _ e _ => e | ProtoAccessor => false end.

Definition own_keys (o : obj) : list string := map fst (props o).

Definition own_enumerable_keys (o : obj) : list string :=
  map fst (List.filter (fun kp => is_enumerable (snd kp)) (props o)).

(** The own enumerable data properties with their values, in key order:
    what [Object.assign] reads from its source. *)
Fixpoint enumerable_entries (ps : list (string * prop)) : list (string * value) :=
  match ps with
  | [] => []
  | (k, Data v _ true _) :: ps' => (k, v) :: enumerable_entries ps'
  | _ :: ps' => enumerable_entries ps'
  end.

(** ** The intrinsics and the initial heap *)

Definition ObjectPrototype : loc := 0.
Definition ErrorPrototype : loc := 1.
Definition ErrorCtor : loc := 2.
Definition FunctionPrototype : loc := 3.

Definition initial_heap : heap :=
  [ mkObj None Plain [("__proto__", ProtoAccessor)];
    mkObj (Some ObjectPrototype) Plain
      [("constructor", Data (VObj ErrorCtor) true false true);
       ("name", Data (VStr "Error") true false true);
       ("message", Data (VStr "") true false true)];
    mkObj (Some FunctionPrototype) ErrorConstructor
      [("length", Data (VNum 1) false false true);
       ("name", Data (VStr "Error") false false true);
       ("prototype", Data (VObj ErrorPrototype) false false false)];
    mkObj (Some ObjectPrototype) Plain
      [("length", Data (VNum 0) false false true);
       ("name", Data (VStr "") false false true)] ].

(** ** [[Get]], [[Set]] and the prototype chain *)

Definition proto_value (o : obj) : value :=
  match proto o with Some p => VObj p | None => VNull end.

(** The first property named [k] on the chain that starts at [l]. A chain
    without a cycle is shorter than the heap, so [length h] is fuel enough. *)
Fixpoint find_prop (fuel : nat) (h : heap) (l : loc) (k : string) : option prop :=
  match fuel with
  | 0 => None
  | S f =>
      match h !! l with
      | None => None
      | Some o =>
          match get_own o k with
          | Some p => Some p
          | None =>
              match proto o with
              | Some p => find_prop f h p k
              | None => None
              end
          end
      end
  end.

(** [O.[[Get]](k, O)]. *)
Definition get (h : heap) (l : loc) (k : string) : value :=
  match find_prop (length h) h l k with
  | Some (Data v _ _ _) => v
  | Some ProtoAccessor =>
      match h !! l with Some o => proto_value o | None => VUndefined end
  | None => VUndefined
  end.

Definition Get (l : loc) (k : string) : M value := fun h => Normal (get h l k) h.

(** Whether [target] lies on the chain that starts at [start]. *)
Fixpoint reaches (fuel : nat) (h : heap) (start : option loc) (target : loc) : bool :=
  match fuel, start with
  | S f, Some p =>
      if Nat.eqb p target then true
      else match h !! p with
           | Some o => reaches f h (proto o) target
           | None => false
           end
  | _, _ => false
  end.

Definition same_proto (p q : option loc) : bool :=
  match p, q with
  | Some a, Some b => Nat.eqb a b
  | None, None => true
  | _, _ => false
  end.

(** [OrdinarySetPrototypeOf]: no change when the value is the current one,
    refused ([None]) when it would close a cycle. Every object of the model
    is extensible. *)
Definition ordinary_set_prototype_of (h : heap) (l : loc) (p : option loc)
  : option heap :=
  match h !! l with
  | None => None
  | Some o =>
      if same_proto p (proto o) then Some h
      else if reaches (length h) h p l then None
      else Some (<[l := set_proto o p]> h)
  end.

(** The setter of [Object.prototype.__proto__]: a value that is neither an
    object nor [null] is ignored. *)
Definition proto_setter (l : loc) (v : value) : M unit := fun h =>
  match v with
  | VObj p =>
      match ordinary_set_prototype_of h l (Some p) with
      | Some h' => Normal tt h'
      | None => Throw TypeError h
      end
  | VNull =>
      match ordinary_set_prototype_of h l None with
      | Some h' => Normal tt h'
      | None => Throw TypeError h
      end
  | _ => Normal tt h
  end.

(** [Object.setPrototypeOf(O, proto)]. *)
Definition Object_setPrototypeOf (l : loc) (v : value) : M unit := fun h =>
  match v with
  | VObj p =>
      match ordinary_set_prototype_of h l (Some p) with
      | Some h' => Normal tt h'
      | None => Throw TypeError h
      end
  | VNull =>
      match ordinary_set_prototype_of h l None with
      | Some h' => Normal tt h'
      | None => Throw TypeError h
      end
  | _ => Throw TypeError h
  end.

(** [O.k = v] in strict code, and [Set(O, k, v, true)]: [OrdinarySet] with
    the object as its own receiver, a [false] result turned into a
    [TypeError]. The walk finds the first property named [k] on the chain;
    a read-only one refuses the write, the [__proto__] accessor runs its
    setter, anything else writes an own data property of the receiver. *)
Definition put (l : loc) (k : string) (v : value) : M unit := fun h =>
  match h !! l with
  | None => Throw TypeError h
  | Some o =>
      match find_prop (length h) h l k with
      | Some ProtoAccessor => proto_setter l v h
      | Some (Data _ false _ _) => Throw TypeError h
      | Some (Data _ true _ _) | None =>
          match get_own o k with
          | Some (Data _ true e c) => Normal tt (<[l := set_own o k (Data v true e c)]> h)
          | Some _ => Throw TypeError h
          | None => Normal tt (<[l := set_own o k (Data v true true true)]> h)
          end
      end
  end.

(** [CreateDataPropertyOrThrow(O, k, v)], the definition a class field
    initializer performs. *)
Definition create_data_property (l : loc) (k : string) (v : value) : M unit := fun h =>
  match h !! l with
  | None => Throw TypeError h
  | Some o =>
      match get_own o k with
      | Some (Data _ _ _ false) => Throw TypeError h
      | _ => Normal tt (<[l := set_own o k (Data v true true true)]> h)
      end
  end.

(** The [[Prototype]] chain of an object, nearest first. *)
Fixpoint proto_chain (fuel : nat) (h : heap) (l : loc) : list loc :=
  match fuel with
  | 0 => []
  | S f =>
      match h !! l with
      | Some o =>
          match proto o with
          | Some p => p :: proto_chain f h p
          | None => []
          end
      | None => []
      end
  end.

(** [v instanceof C] through [OrdinaryHasInstance]: [None] stands for the
    [TypeError] of a right-hand side that is not callable or whose
    [prototype] is not an object. *)
Definition instance_of (h : heap) (v : value) (C : loc) : option bool :=
  match h !! C with
  | None => None
  | Some c =>
      match okind c with
      | Plain => None
      | _ =>
          match v with
          | VObj l =>
              match get h C "prototype" with
              | VObj P => Some (existsb (Nat.eqb P) (proto_chain (length h) h l))
              | _ => None
              end
          | _ => Some false
          end
      end
  end.

(** ** The built-ins the constructor calls *)

Definition alloc (o : obj) : M loc := fun h => Normal (length h) (h ++ [o]).

(** [new Error(message)] run for [newTarget], as [super(tag)] does:
    [OrdinaryCreateFromConstructor] takes the prototype from
    [newTarget.prototype] (the intrinsic one when that is not an object),
    then [message] is defined as a non-enumerable own property. What else
    a fresh error owns is the host's business: the captured trace under
    [stack], and on some hosts the position of the throw site ([line],
    [column], [sourceURL], ...). These are the argument [host]. *)
Definition Error_construct (host : list (string * prop)) (newTarget : loc)
    (message : string) : M loc :=
  let* pv := Get newTarget "prototype" in
  alloc (mkObj (Some (match pv with VObj p => p | _ => ErrorPrototype end)) Plain
           (("message", Data (VStr message) true false true) :: host)).

(** The host that contributes the captured trace and nothing else, as a
    writable, non-enumerable data property. *)
Definition trace_only (trace : string) : list (string * prop) :=
  [("stack", Data (VStr trace) true false true)].

(** [Object.assign(target, source)]: the own enumerable properties of the
    source, read once in key order, are written to the target with [[Set]].
    The properties of the model are data properties, so reading one runs
    no code; a source with getters is outside the model. *)
Fixpoint assign_entries (target : loc) (kvs : list (string * value)) : M unit :=
  match kvs with
  | [] => ret tt
  | (k, v) :: rest => put target k v ;; assign_entries target rest
  end.

Definition Object_assign (target source : loc) : M unit := fun h =>
  match h !! source with
  | Some s => assign_entries target (enumerable_entries (props s)) h
  | None => Throw TypeError h
  end.

(** ** The source: [TaggedError] and the class it returns *)

(** [TaggedError(tag)]: evaluating the class expression allocates the
    prototype object (its [[Prototype]] is [Error.prototype]) and the class
    itself (its [[Prototype]] is [Error]); the class keeps [tag] in its
    closure. There is no check of [tag]. *)
Definition TaggedError (tag : string) : M loc := fun h =>
  let P := length h in
  let F := S (length h) in
  Normal F
    (h ++ [ mkObj (Some ErrorPrototype) Plain
              [("constructor", Data (VObj F) true false true)];
            mkObj (Some ErrorCtor) (TaggedClass tag)
              [("length", Data (VNum 1) false false true);
               ("name", Data (VStr "") false false true);
               ("prototype", Data (VObj P) false false false)] ]).

(** The constructor of the returned class, run for [new.target = newTarget]
    with the optional argument [props] ([None] when it is omitted; the type
    [T extends object] leaves only objects otherwise, and every object is
    truthy). Only classes made by [TaggedError] have a constructor body
    here: for any other [F] the answer is [TypeError] (an instance of a
    client subclass is built through its parent, see [class_extends]).
<<
      readonly _tag: Tag = tag;
      constructor(props?: T) {
        super(tag);
        Object.setPrototypeOf(this, new.target.prototype);
        if (props) { Object.assign(this, props); }
        this.name = tag;
      }
>>
    The field initializer runs as soon as [super] returns. [super] is the
    class's [[Prototype]], the [Error] intrinsic: no step of the model
    changes a class object. *)
Definition construct_on (host : list (string * prop)) (F newTarget : loc)
    (props : option loc) : M loc := fun h =>
  match okind <$> h !! F with
  | Some (TaggedClass tag) =>
      (let* this := Error_construct host newTarget tag in
       create_data_property this "_tag" (VStr tag) ;;
       let* pv := Get newTarget "prototype" in
       Object_setPrototypeOf this pv ;;
       match props with
       | Some p => Object_assign this p
       | None => ret tt
       end ;;
       put this "name" (VStr tag) ;;
       ret this) h
  | _ => Throw TypeError h
  end.

(** The constructor on a host that contributes the trace only. *)
Definition construct (F newTarget : loc) (props : option loc) (trace : string)
  : M loc :=
  construct_on (trace_only trace) F newTarget props.

(** [class C extends parent {}], as the tests and the README declare
    their errors: the prototype object of [C] inherits from
    [parent.prototype] and [C] itself from [parent]. The constructor of [C]
    is the default one, [constructor(...args) { super(...args); }], so
    [new C(props)] is [construct parent C props]. The declaration throws
    when [parent] is not a constructor or its [prototype] is neither an
    object nor [null]. *)
Definition class_extends (parent : loc) (name : string) : M loc := fun h =>
  let P := length h in
  let C := S (length h) in
  let declare (inherited : option loc) :=
    Normal C
      (h ++ [ mkObj inherited Plain
                [("constructor", Data (VObj C) true false true)];
              mkObj (Some parent) Subclass
                [("length", Data (VNum 0) false false true);
                 ("name", Data (VStr name) false false true);
                 ("prototype", Data (VObj P) false false false)] ]) in
  match okind <$> h !! parent with
  | None | Some Plain => Throw TypeError h
  | Some _ =>
      match get h parent "prototype" with
      | VObj PP => declare (Some PP)
      | VNull => declare None
      | _ => Throw TypeError h
      end
  end.

(** [new V(props)] and [new V()]. *)
Definition new (V : loc) (props : option loc) (trace : string) : M loc :=
  construct V V props trace.

(** The same on any host. *)
Definition new_on (host : list (string * prop)) (V : loc) (props : option loc)
  : M loc :=
  construct_on host V V props.

(** An object literal with computed keys [{[k1]: v1, ...}], or what
    [JSON.parse] builds: a plain object whose fields are writable,
    enumerable, configurable own data properties; a repeated key keeps its
    first place and its last value. (Written [{__proto__: v}], without the
    brackets, a literal sets its own prototype instead; that form is not
    this one.) *)
Definition literal (fields : list (string * value)) : M loc :=
  alloc (mkObj (Some ObjectPrototype) Plain
           (fold_left (fun ps kv => store_prop (fst kv) (Data (snd kv) true true true) ps)
              fields [])).

(** ** Observations on an instance *)

Definition own_prop (h : heap) (l : loc) (k : string) : option prop :=
  match h !! l with Some o => get_own o k | None => None end.

Definition own_value (h : heap) (l : loc) (k : string) : option value :=
  match own_prop h l k with Some (Data v _ _ _) => Some v | _ => None end.

Definition keys_of (h : heap) (l : loc) : list string :=
  match h !! l with Some o => own_keys o | None => [] end.

Definition enumerable_keys_of (h : heap) (l : loc) : list string :=
  match h !! l with Some o => own_enumerable_keys o | None => [] end.


(** ** What the program does to the heap *)

(** The steps of a client program that matter here: calling the factory,
    constructing from a class, building a property map. *)
Inductive action :=
| MakeVariant (tag : string)
| New (V : loc) (props : option loc) (trace : string)
| Literal (fields : list (string * value)).

Definition run (a : action) (h : heap) : heap :=
  match a with
  | MakeVariant tag => heap_of (TaggedError tag h)
  | New V props trace => heap_of (new V props trace h)
  | Literal fields => heap_of (literal fields h)
  end.

Inductive steps : heap -> heap -> Prop :=
| steps_refl h : steps h h
| steps_cons a h h' : steps (run a h) h' -> steps h h'.

(** ** Well-formed heaps *)

Definition writable_or_absent (o : obj) (k : string) : bool :=
  match get_own o k with
  | Some (Data _ w _ _) => w
  | Some ProtoAccessor => false
  | None => true
  end.

(** No property of the object stops an assignment further down the chain,
    the [__proto__] accessor apart. *)
Definition settable (o : obj) : Prop :=
  forall k, k <> "__proto__" -> writable_or_absent o k = true.

Definition obj_ok (o : obj) : Prop :=
  List.NoDup (own_keys o) /\
  forall k, get_own o k = Some ProtoAccessor -> k = "__proto__".

Definition all_writable (o : obj) : Prop :=
  forall k p, get_own o k = Some p -> exists v e c, p = Data v true e c.

(** The object under construction: plain, distinct keys, writable data
    properties only. *)
Record this_ok (o : obj) : Prop := {
  this_plain : okind o = Plain;
  this_keys : List.NoDup (own_keys o);
  this_writable : all_writable o
}.

(** The class [V] was made by [TaggedError(tag)] and [P] is its prototype
    object. *)
Definition variant (h : heap) (V : loc) (tag : string) : Prop :=
  okind <$> h !! V = Some (TaggedClass tag).

Definition class_ok (h : heap) (V : loc) (o : obj) : Prop :=
  exists P op,
    get_own o "prototype" = Some (Data (VObj P) false false false) /\
    ErrorCtor < P /\
    h !! P = Some op /\
    proto op = Some ErrorPrototype /\
    settable op /\
    get_own op "constructor" = Some (Data (VObj V) true false true).

(** The intrinsics are in place and unspoilt, every class has the
    prototype object it was created with, and property lists are proper. *)
Record wf (h : heap) : Prop := {
  wf_object_prototype :
    exists o, h !! ObjectPrototype = Some o /\ proto o = None /\ settable o;
  wf_error_prototype :
    exists o, h !! ErrorPrototype = Some o /\
              proto o = Some ObjectPrototype /\ settable o;
  wf_error :
    exists o, h !! ErrorCtor = Some o /\ okind o = ErrorConstructor /\
              get_own o "prototype" = Some (Data (VObj ErrorPrototype) false false false);
  wf_classes :
    forall V o tag, h !! V = Some o -> okind o = TaggedClass tag -> class_ok h V o;
  wf_objects :
    forall l o, h !! l = Some o -> obj_ok o
}.

(** The property a successful write of [v] leaves: an existing data
    property keeps its attributes, a new one gets the default ones. *)
Definition written (v : value) (old : option prop) : prop :=
  match old with
  | Some (Data _ _ e c) => Data v true e c
  | _ => Data v true true true
  end.

(** The effect of a successful write of [k] on a property list whose
    data properties are writable. *)
Definition write_prop (k : string) (v : value) (ps : list (string * prop))
  : list (string * prop) :=
  store_prop k (written v (lookup_prop k ps)) ps.

Definition write_all (kvs : list (string * value)) (ps : list (string * prop))
  : list (string * prop) :=
  fold_left (fun ps kv => write_prop (fst kv) (snd kv) ps) kvs ps.

(** The own properties of an instance of a class with tag [tag], built
    with the entries [kvs], in the order the constructor creates them. *)
Definition instance_props (tag trace : string) (kvs : list (string * value))
  : list (string * prop) :=
  write_prop "name" (VStr tag)
    (write_all kvs
       [("message", Data (VStr tag) true false true);
        ("stack", Data (VStr trace) true false true);
        ("_tag", Data (VStr tag) true true true)]).

(** The entries [Object.assign] takes from the optional argument. *)
Definition entries_of (h : heap) (arg : option loc) : list (string * value) :=
  match arg with
  | Some p =>
      match h !! p with
      | Some po => enumerable_entries (props po)
      | None => []
      end
  | None => []
  end.

(** The argument is omitted or an object of the heap. *)
Definition props_in (h : heap) (arg : option loc) : Prop :=
  match arg with Some p => is_Some (h !! p) | None => True end.

(** The argument has an own enumerable key [__proto__]. *)
Definition carries_proto_key (h : heap) (arg : option loc) : bool :=
  existsb (String.eqb "__proto__") (map fst (entries_of h arg)).

(** The outcome of a walk along the prototype chain that lets the write
    go on to the receiver. *)
Definition passes (r : option prop) : Prop :=
  match r with
  | Some (Data _ w _ _) => w = true
  | Some ProtoAccessor => False
  | None => True
  end.

(** The object as the constructor has it when [super] has returned and
    the field initializer has run. *)
Definition base_instance (P : loc) (tag trace : string) : obj :=
  mkObj (Some P) Plain
    [("message", Data (VStr tag) true false true);
     ("stack", Data (VStr trace) true false true);
     ("_tag", Data (VStr tag) true true true)].

(** The rest of the constructor: the merge and the assignment of [name]. *)
Definition merge_and_name (this : loc) (tag : string) (kvs : list (string * value))
  : M loc :=
  assign_entries this kvs ;; put this "name" (VStr tag) ;; ret this.

(** The prototype object of a class: the value of its own [prototype]. *)
Definition prototype_of (h : heap) (V : loc) : option loc :=
  match own_value h V "prototype" with
  | Some (VObj P) => Some P
  | _ => None
  end.

(** ** Sample sessions *)

(** The sessions call the factory and use the class it returns. Here
    the class is at [5] (its prototype object at [4]) and the property map
    [{statusCode: 404, url: "https://x"}] at [6]. *)
Definition http_session : heap :=
  run (Literal [("statusCode", VNum 404); ("url", VStr "https://x")])
    (run (MakeVariant "HttpError") initial_heap).

(** A property map that names the error: [{name: "Other"}]. *)
Definition renaming_session : heap :=
  run (Literal [("name", VStr "Other")])
    (run (MakeVariant "HttpError") initial_heap).

(** A property map that supplies a discriminant and a message:
    [{_tag: "Other", message: "not found"}]. *)
Definition retagging_session : heap :=
  run (Literal [("_tag", VStr "Other"); ("message", VStr "not found")])
    (run (MakeVariant "HttpError") initial_heap).

(** Two classes with the same tag, [5] and [7] (prototype objects [4]
    and [6]), and the property map [{["__proto__"]: V2.prototype}] at [8],
    whose [__proto__] is an own enumerable property as a computed key or
    [JSON.parse] creates it. *)
Definition twin_session : heap :=
  run (Literal [("__proto__", VObj 6)])
    (run (MakeVariant "X") (run (MakeVariant "X") initial_heap)).

(** Two classes with different tags, [5] and [7], and the property map
    [{resource: "user"}] at [8]. *)
Definition siblings_session : heap :=
  run (Literal [("resource", VStr "user")])
    (run (MakeVariant "UnauthorizedError")
       (run (MakeVariant "NotFoundError") initial_heap)).

(** A property map whose own [__proto__] is the class itself, a function
    object with a read-only [name]: [{["__proto__"]: V}] at [6]. *)
Definition self_proto_session : heap :=
  run (Literal [("__proto__", VObj 5)])
    (run (MakeVariant "HttpError") initial_heap).

(** ** The claims, as the specification states them

    These are the statements that do not hold as they are worded; each is
    refuted at a sample session and proved in an amended form. *)

(** The instance has every entry of the property map as an own field
    with the same value. *)
Definition merge_keeps_every_entry (h : heap) (V p : loc) (trace : string) : Prop :=
  exists o h', new V (Some p) trace h = Normal o h' /\
    forall k v, In (k, v) (entries_of h (Some p)) -> own_value h' o k = Some v.


(** No instance built from [V1] is an instance of [V2]. *)
Definition never_instance_of_other (h : heap) (V1 V2 : loc) (arg : option loc)
    (trace : string) : Prop :=
  forall o h', new V1 arg trace h = Normal o h' ->
    instance_of h' (VObj o) V2 = Some false.

(** The reserved field names; [stack] is what the specification calls
    the trace. *)
Definition reserved : list string := ["_tag"; "name"; "message"; "stack"].

(** A supplied property wins over the default for every reserved name. *)
Definition supplied_reserved_wins (h : heap) (V p : loc) (trace : string) : Prop :=
  exists o h', new V (Some p) trace h = Normal o h' /\
    forall k v, In k reserved -> In (k, v) (entries_of h (Some p)) ->
                get h' o k = v.

(** [_tag] and [name] equal the tag whatever the property map supplies. *)
Definition tag_and_name_set_last (h : heap) (V : loc) (tag : string) (p : loc)
    (trace : string) : Prop :=
  exists o h', new V (Some p) trace h = Normal o h' /\
    get h' o "_tag" = VStr tag /\ get h' o "name" = VStr tag.

(** The factory refuses the empty tag. *)
Definition rejects_empty_tag (h : heap) : Prop :=
  exists e h', TaggedError "" h = Throw e h'.

(** The own enumerable fields of an instance built without properties
    are the four defaults, and nothing else but what the host contributes. *)
Definition enumerable_fields_are_defaults (host : list (string * prop)) (h : heap)
    (V : loc) : Prop :=
  exists o h', new_on host V None h = Normal o h' /\
    (forall k, In k reserved -> In k (enumerable_keys_of h' o)) /\
    (forall k, In k (enumerable_keys_of h' o) ->
               In k reserved \/ In k (map fst host)).

(** ** Client subclasses *)

(** [new C(props)] for any class: a class made by [TaggedError] runs its
    constructor; a client subclass has the default constructor, which
    hands the arguments and [new.target] to its parent, the class's
    [[Prototype]]. (A parent that is [Error] itself has no body here.) *)
Fixpoint construct_from (host : list (string * prop)) (fuel : nat)
    (C newTarget : loc) (props : option loc) : M loc := fun h =>
  match fuel with
  | 0 => Throw TypeError h
  | S f =>
      match h !! C with
      | Some c =>
          match okind c with
          | TaggedClass _ => construct_on host C newTarget props h
          | Subclass =>
              match proto c with
              | Some parent => construct_from host f parent newTarget props h
              | None => Throw TypeError h
              end
          | _ => Throw TypeError h
          end
      | None => Throw TypeError h
      end
  end.

Definition new_class_on (host : list (string * prop)) (C : loc)
    (props : option loc) : M loc :=
  fun h => construct_from host (length h) C C props h.

(** On a host that contributes the trace only. *)
Definition new_class (C : loc) (props : option loc) (trace : string) : M loc :=
  new_class_on (trace_only trace) C props.

(** ** Hosts *)

(** What the constructor relies on in the host's fields of a fresh error:
    they are writable data properties, none is enumerable, their names are
    distinct and none is [message], [_tag], [name] or [__proto__]. *)
Fixpoint host_ok (host : list (string * prop)) : bool :=
  match host with
  | [] => true
  | (k, Data _ true false _) :: rest =>
      negb (existsb (String.eqb k)
              ("message" :: "_tag" :: "name" :: "__proto__" :: map fst rest))
      && host_ok rest
  | _ => false
  end.

(** The own properties of the object when [super] has returned and the
    field initializer has run, on any host. *)
Definition base_props (host : list (string * prop)) (tag : string)
  : list (string * prop) :=
  ("message", Data (VStr tag) true false true)
    :: host ++ [("_tag", Data (VStr tag) true true true)].

Definition base_on (host : list (string * prop)) (P : loc) (tag : string) : obj :=
  mkObj (Some P) Plain (base_props host tag).

(** What a host such as JavaScriptCore puts on an error: the trace and the
    position of the throw site. *)
Definition positioned_host : list (string * prop) :=
  [("stack", Data (VStr "at main") true false true);
   ("line", Data (VNum 3) true false true);
   ("column", Data (VNum 9) true false true);
   ("sourceURL", Data (VStr "main.ts") true false true)].

(** [C] was declared [class C extends V {}]: its parent is [V] and its
    prototype object inherits from the prototype object of [V]. *)
Definition subclass (h : heap) (C V : loc) : Prop :=
  exists c PC opc P,
    h !! C = Some c /\ okind c = Subclass /\ proto c = Some V /\
    get_own c "prototype" = Some (Data (VObj PC) false false false) /\
    h !! PC = Some opc /\ proto opc = Some P /\ prototype_of h V = Some P /\
    settable opc /\
    get_own opc "constructor" = Some (Data (VObj C) true false true).

(** The session of the README: [class HttpError extends
    TaggedError("HttpError") {}], declared after [http_session]; the
    subclass is at [8], its prototype object at [7]. *)
Definition readme_session : heap :=
  heap_of (class_extends 5 "HttpError" http_session).

(** Two declared errors, as in the tests: [NotFoundError] at [10] and
    [UnauthorizedError] at [12], subclasses of the classes [5] and [7] of
    [siblings_session]. *)
Definition declared_session : heap :=
  heap_of (class_extends 7 "UnauthorizedError"
             (heap_of (class_extends 5 "NotFoundError" siblings_session))).

(** An instance of the first class of [siblings_session], at [9], built
    with its property map. *)
Definition caught_session : heap :=
  run (New 5 (Some 8) "at main") siblings_session.

(** An instance of [HttpError] at [7], built with the property map of
    [http_session]. *)
Definition thrown_session : heap :=
  run (New 5 (Some 6) "at main") http_session.

(** * Properties *)

(** ** Property lists *)

Section PropertyLists.

Implicit Types (k : string) (p : prop) (ps : list (string * prop)).

Lemma lookup_store k p ps k' :
  lookup_prop k' (store_prop k p ps)
  = if String.eqb k' k then Some p else lookup_prop k' ps.
Proof.
  induction ps as [|[k0 p0] ps IH]; simpl.
  - destruct (String.eqb k' k); reflexivity.
  - destruct (String.eqb k k0) eqn:E; simpl.
    + apply String.eqb_eq in E; subst k0.
      destruct (String.eqb k' k); reflexivity.
    + destruct (String.eqb k' k0) eqn:E'; [|exact IH].
      apply String.eqb_eq in E'; subst k0.
      rewrite String.eqb_sym, E. reflexivity.
Qed.

Lemma lookup_store_eq k p ps : lookup_prop k (store_prop k p ps) = Some p.
Proof. rewrite lookup_store, String.eqb_refl. reflexivity. Qed.

Lemma lookup_store_ne k p ps k' :
  k' <> k -> lookup_prop k' (store_prop k p ps) = lookup_prop k' ps.
Proof.
  intros Hne. rewrite lookup_store.
  destruct (String.eqb k' k) eqn:E; [|reflexivity].
  apply String.eqb_eq in E. contradiction.
Qed.

Lemma lookup_prop_None k ps : lookup_prop k ps = None <-> ~ In k (map fst ps).
Proof.
  induction ps as [|[k0 p0] ps IH]; simpl.
  - split; [intros _ []|reflexivity].
  - destruct (String.eqb k k0) eqn:E.
    + apply String.eqb_eq in E. split; [discriminate|].
      intros H. exfalso. apply H. left. congruence.
    + apply String.eqb_neq in E. rewrite IH. split.
      * intros H [H'|H']; [congruence|contradiction].
      * intros H H'. apply H. right. exact H'.
Qed.

Lemma store_prop_keys k p ps :
  map fst (store_prop k p ps)
  = match lookup_prop k ps with
    | Some _ => map fst ps
    | None => map fst ps ++ [k]
    end.
Proof.
  induction ps as [|[k0 p0] ps IH]; simpl; [reflexivity|].
  destruct (String.eqb k k0) eqn:E; simpl.
  - apply String.eqb_eq in E. congruence.
  - rewrite IH. destruct (lookup_prop k ps); reflexivity.
Qed.

Lemma store_prop_NoDup k p ps :
  List.NoDup (map fst ps) -> List.NoDup (map fst (store_prop k p ps)).
Proof.
  intros Hnd. rewrite store_prop_keys.
  destruct (lookup_prop k ps) eqn:E; [exact Hnd|].
  apply lookup_prop_None in E.
  induction (map fst ps) as [|a l IH]; simpl.
  - constructor; [intros []|constructor].
  - inversion Hnd as [|? ? Ha Hl]; subst.
    constructor.
    + rewrite in_app_iff. intros [H|[H|[]]]; [contradiction|].
      apply E. left. congruence.
    + apply IH; [exact Hl|]. intros H. apply E. right. exact H.
Qed.

Lemma enumerable_entries_In k v ps :
  In (k, v) (enumerable_entries ps) ->
  exists w c, In (k, Data v w true c) ps.
Proof.
  induction ps as [|[k0 p0] ps IH]; simpl; [intros []|].
  destruct p0 as [v0 w0 [|] c0|]; simpl.
  - intros [[= -> ->]|H]; [exists w0, c0; left; reflexivity|].
    destruct (IH H) as (w & c & Hin). exists w, c. right. exact Hin.
  - intros H. destruct (IH H) as (w & c & Hin). exists w, c. right. exact Hin.
  - intros H. destruct (IH H) as (w & c & Hin). exists w, c. right. exact Hin.
Qed.

Lemma enumerable_entries_keys k ps :
  In k (map fst (enumerable_entries ps)) -> In k (map fst ps).
Proof.
  rewrite !in_map_iff. intros ([k' v] & <- & Hin).
  destruct (enumerable_entries_In _ _ _ Hin) as (w & c & H).
  exists (k', Data v w true c). split; [reflexivity|exact H].
Qed.

Lemma enumerable_entries_NoDup ps :
  List.NoDup (map fst ps) -> List.NoDup (map fst (enumerable_entries ps)).
Proof.
  induction ps as [|[k0 p0] ps IH]; simpl; [constructor|].
  intros Hnd. inversion Hnd as [|? ? Hk Hps]; subst.
  destruct p0 as [v0 w0 [|] c0|]; simpl; auto.
  constructor; [|auto].
  intros H. apply Hk. apply enumerable_entries_keys. exact H.
Qed.

End PropertyLists.

(** ** Writes on a property list *)

Section Writes.

Implicit Types (k : string) (v : value) (ps : list (string * prop)).

Lemma write_prop_store k v ps :
  write_prop k v ps = store_prop k (written v (lookup_prop k ps)) ps.
Proof. reflexivity. Qed.

Lemma lookup_write k v ps k' :
  lookup_prop k' (write_prop k v ps)
  = if String.eqb k' k then Some (written v (lookup_prop k ps))
    else lookup_prop k' ps.
Proof. rewrite write_prop_store. apply lookup_store. Qed.

Lemma lookup_write_eq k v ps :
  lookup_prop k (write_prop k v ps) = Some (written v (lookup_prop k ps)).
Proof. rewrite lookup_write, String.eqb_refl. reflexivity. Qed.

Lemma lookup_write_ne k v ps k' :
  k' <> k -> lookup_prop k' (write_prop k v ps) = lookup_prop k' ps.
Proof. intros H. rewrite write_prop_store. apply lookup_store_ne, H. Qed.

Lemma write_prop_NoDup k v ps :
  List.NoDup (map fst ps) -> List.NoDup (map fst (write_prop k v ps)).
Proof. rewrite write_prop_store. apply store_prop_NoDup. Qed.

(** Lookups after a series of writes depend on the lookups before only. *)
Lemma write_all_ext kvs ps ps' k' :
  (forall k, k <> "__proto__" -> lookup_prop k ps = lookup_prop k ps') ->
  k' <> "__proto__" ->
  lookup_prop k' (write_all kvs ps) = lookup_prop k' (write_all kvs ps').
Proof.
  revert ps ps'. induction kvs as [|[k v] kvs IH]; intros ps ps' Hext Hk'.
  - simpl. apply Hext, Hk'.
  - simpl. apply IH; [|exact Hk'].
    intros k0 Hk0. rewrite !lookup_write.
    destruct (String.eqb k0 k) eqn:E.
    + apply String.eqb_eq in E; subst k0. rewrite Hext by exact Hk0. reflexivity.
    + apply Hext, Hk0.
Qed.

Lemma write_all_other kvs ps k :
  ~ In k (map fst kvs) -> lookup_prop k (write_all kvs ps) = lookup_prop k ps.
Proof.
  revert ps. induction kvs as [|[k0 v0] kvs IH]; intros ps Hk; [reflexivity|].
  simpl in *. rewrite IH by tauto. apply lookup_write_ne. intros ->. tauto.
Qed.

(** With distinct keys, every entry is the last write of its key. *)
Lemma write_all_entry kvs ps k v :
  List.NoDup (map fst kvs) -> In (k, v) kvs ->
  lookup_prop k (write_all kvs ps) = Some (written v (lookup_prop k ps)).
Proof.
  revert ps. induction kvs as [|[k0 v0] kvs IH]; intros ps Hnd Hin; [destruct Hin|].
  simpl in *. inversion Hnd as [|? ? Hk0 Hkvs]; subst.
  destruct Hin as [[= -> ->]|Hin].
  - rewrite write_all_other by exact Hk0. apply lookup_write_eq.
  - rewrite (IH _ Hkvs Hin). rewrite lookup_write_ne; [reflexivity|].
    intros ->. apply Hk0. apply in_map_iff. exists (k0, v). split; [reflexivity|exact Hin].
Qed.

End Writes.

(** ** The heap grows at its end *)

Section Heap.

Implicit Types (h : heap) (o : obj) (l : loc).

Lemma last_lookup h o : (h ++ [o]) !! length h = Some o.
Proof. apply list_lookup_middle. reflexivity. Qed.

Lemma last_insert h o o' : <[length h := o']> (h ++ [o]) = h ++ [o'].
Proof.
  rewrite insert_app_r_alt by lia. rewrite Nat.sub_diag. reflexivity.
Qed.

Lemma old_lookup h ext l o : h !! l = Some o -> (h ++ ext) !! l = Some o.
Proof.
  intros H. rewrite lookup_app_l; [exact H|]. eapply lookup_lt_Some, H.
Qed.

Lemma find_prop_own h l o k p :
  h !! l = Some o -> get_own o k = Some p ->
  find_prop (length h) h l k = Some p.
Proof.
  intros Hl Hk. destruct h as [|o0 h']; [discriminate|].
  cbn [length find_prop]. rewrite Hl, Hk. reflexivity.
Qed.

Lemma find_prop_origin fuel h l k p :
  find_prop fuel h l k = Some p ->
  exists l' o', h !! l' = Some o' /\ get_own o' k = Some p.
Proof.
  revert l. induction fuel as [|f IH]; intros l; simpl; [discriminate|].
  destruct (h !! l) as [o|] eqn:Hl; [|discriminate].
  destruct (get_own o k) as [p'|] eqn:Hk.
  - intros [= ->]. eauto.
  - destruct (proto o) as [q|]; [apply IH|discriminate].
Qed.

Lemma get_own_data h l o k v w e c :
  h !! l = Some o -> get_own o k = Some (Data v w e c) -> get h l k = v.
Proof.
  intros Hl Hk. unfold get. rewrite (find_prop_own _ _ _ _ _ Hl Hk). reflexivity.
Qed.

End Heap.

(** ** Writes to the object under construction

    The constructor works on the object it has just allocated, the last one
    of the heap; nothing it does touches an older object. *)

Section LastObject.

Variable h : heap.
Hypothesis Hobjs : forall l o, h !! l = Some o -> obj_ok o.

Lemma this_ok_set_own o k v e c :
  this_ok o -> this_ok (set_own o k (Data v true e c)).
Proof.
  intros [Hp Hk Hw]. split.
  - exact Hp.
  - apply store_prop_NoDup, Hk.
  - intros k' p. unfold get_own, set_own; simpl. rewrite lookup_store.
    destruct (String.eqb k' k).
    + intros [= <-]. eauto.
    + apply Hw.
Qed.

Lemma this_ok_set_proto o p : this_ok o -> this_ok (set_proto o p).
Proof. intros [Hp Hk Hw]. split; assumption. Qed.

Lemma this_ok_obj_ok o : this_ok o -> obj_ok o.
Proof.
  intros [_ Hk Hw]. split; [exact Hk|].
  intros k Hacc. destruct (Hw _ _ Hacc) as (v & e & c & [=]).
Qed.

Lemma accessor_key o fuel l k :
  this_ok o ->
  find_prop fuel (h ++ [o]) l k = Some ProtoAccessor -> k = "__proto__".
Proof.
  intros Hok Hfind.
  destruct (find_prop_origin _ _ _ _ _ Hfind) as (l' & o' & Hl' & Hacc).
  apply lookup_app_Some in Hl' as [Hl'|[_ Hl']].
  - exact (proj2 (Hobjs _ _ Hl') _ Hacc).
  - destruct (l' - length h) as [|n]; simpl in Hl'; [|destruct n; discriminate].
    injection Hl' as <-. exact (proj2 (this_ok_obj_ok _ Hok) _ Hacc).
Qed.

Lemma set_prototype_last o p :
  match ordinary_set_prototype_of (h ++ [o]) (length h) p with
  | Some H => H = h ++ [o] \/ H = h ++ [set_proto o p]
  | None => True
  end.
Proof.
  unfold ordinary_set_prototype_of. rewrite last_lookup.
  destruct (same_proto p (proto o)); [left; reflexivity|].
  destruct (reaches _ _ _ _); [exact I|].
  right. apply last_insert.
Qed.

Lemma proto_setter_last o v :
  this_ok o ->
  match proto_setter (length h) v (h ++ [o]) with
  | Normal _ H => exists o', H = h ++ [o'] /\ this_ok o' /\ props o' = props o
  | Throw _ H => H = h ++ [o]
  end.
Proof.
  intros Hok. unfold proto_setter.
  destruct v as [| |b|n|s|p]; try (exists o; auto).
  - pose proof (set_prototype_last o None) as Hs.
    destruct (ordinary_set_prototype_of _ _ _); [|reflexivity].
    destruct Hs as [->| ->]; [exists o; auto|].
    exists (set_proto o None). auto using this_ok_set_proto.
  - pose proof (set_prototype_last o (Some p)) as Hs.
    destruct (ordinary_set_prototype_of _ _ _); [|reflexivity].
    destruct Hs as [->| ->]; [exists o; auto|].
    exists (set_proto o (Some p)). auto using this_ok_set_proto.
Qed.

(** A write to the last object changes that object only; when it
    succeeds, every key but [__proto__] reads as after [write_prop]. *)
Lemma put_last o k v :
  this_ok o ->
  match put (length h) k v (h ++ [o]) with
  | Normal _ H =>
      exists o', H = h ++ [o'] /\ this_ok o' /\
        (forall k', k' <> "__proto__" ->
                    get_own o' k' = lookup_prop k' (write_prop k v (props o))) /\
        (k <> "__proto__" ->
         proto o' = proto o /\ props o' = write_prop k v (props o))
  | Throw _ H => H = h ++ [o]
  end.
Proof.
  intros Hok. unfold put. rewrite last_lookup.
  assert (Hwrite :
    match
      match get_own o k with
      | Some (Data _ true e c) =>
          Normal tt (<[length h := set_own o k (Data v true e c)]> (h ++ [o]))
      | Some _ => Throw TypeError (h ++ [o])
      | None =>
          Normal tt (<[length h := set_own o k (Data v true true true)]> (h ++ [o]))
      end
    with
    | Normal _ H =>
        exists o', H = h ++ [o'] /\ this_ok o' /\
          (forall k', k' <> "__proto__" ->
                      get_own o' k' = lookup_prop k' (write_prop k v (props o))) /\
          (k <> "__proto__" ->
           proto o' = proto o /\ props o' = write_prop k v (props o))
    | Throw _ H => H = h ++ [o]
    end).
  { unfold get_own at 1.
    destruct (lookup_prop k (props o)) as [[v0 [|] e0 c0|]|] eqn:Hk;
      try reflexivity.
    - exists (set_own o k (Data v true e0 c0)). rewrite last_insert.
      split; [reflexivity|]. split; [apply this_ok_set_own, Hok|].
      split; intros; unfold write_prop; rewrite Hk; auto.
    - exists (set_own o k (Data v true true true)). rewrite last_insert.
      split; [reflexivity|]. split; [apply this_ok_set_own, Hok|].
      split; intros; unfold write_prop; rewrite Hk; auto. }
  destruct (find_prop _ _ _ _) as [[v0 [|] e0 c0|]|] eqn:Hfind;
    try exact Hwrite; try reflexivity.
  apply accessor_key in Hfind; [|exact Hok]. subst k.
  pose proof (proto_setter_last o v Hok) as Hs.
  destruct (proto_setter _ _ _); [|exact Hs].
  destruct Hs as (o' & -> & Hok' & Hprops).
  exists o'. split; [reflexivity|]. split; [exact Hok'|]. split.
  - intros k' Hk'. unfold get_own. rewrite Hprops.
    symmetry. apply lookup_write_ne, Hk'.
  - intros Hne. contradiction.
Qed.

(** [Object.assign] onto the last object. *)
Lemma assign_last kvs : forall o,
  this_ok o ->
  match assign_entries (length h) kvs (h ++ [o]) with
  | Normal _ H =>
      exists o', H = h ++ [o'] /\ this_ok o' /\
        (forall k', k' <> "__proto__" ->
                    get_own o' k' = lookup_prop k' (write_all kvs (props o))) /\
        (~ In "__proto__" (map fst kvs) ->
         proto o' = proto o /\ props o' = write_all kvs (props o))
  | Throw _ H => exists o', H = h ++ [o'] /\ this_ok o'
  end.
Proof.
  induction kvs as [|[k v] kvs IH]; intros o Hok.
  - simpl. exists o. auto.
  - cbn [assign_entries]. unfold bind.
    pose proof (put_last o k v Hok) as Hput.
    destruct (put _ _ _ _) as [[] H|e H].
    + destruct Hput as (o1 & -> & Hok1 & Hlook1 & Hproto1).
      specialize (IH o1 Hok1).
      destruct (assign_entries _ _ _) as [[] H|e H].
      * destruct IH as (o2 & -> & Hok2 & Hlook2 & Hproto2).
        exists o2. split; [reflexivity|]. split; [exact Hok2|]. split.
        -- intros k' Hk'. rewrite (Hlook2 k' Hk'). simpl.
           apply write_all_ext; [|exact Hk'].
           intros k0 Hk0. apply Hlook1, Hk0.
        -- simpl. intros Hnot.
           destruct Hproto2 as [-> ->]; [tauto|].
           destruct Hproto1 as [-> ->]; [intros ->; tauto|]. auto.
      * exact IH.
    + exists o. split; [exact Hput|exact Hok].
Qed.

End LastObject.

(** ** Construction in a well-formed heap *)

Section Pristine.

Variables (h : heap) (P : loc) (op : obj).
Hypothesis Hwf : wf h.
Hypothesis HP : h !! P = Some op.
Hypothesis HPproto : proto op = Some ErrorPrototype.
Hypothesis HPset : settable op.

Lemma settable_passes o k : settable o -> k <> "__proto__" -> passes (get_own o k).
Proof.
  intros Hs Hk. specialize (Hs k Hk). unfold writable_or_absent in Hs.
  destruct (get_own o k) as [[]|]; simpl; [exact Hs|discriminate|exact I].
Qed.

Lemma writable_passes o k : all_writable o -> passes (get_own o k).
Proof.
  intros Hw. destruct (get_own o k) as [p|] eqn:E; [|exact I].
  destruct (Hw _ _ E) as (v & e & c & ->). reflexivity.
Qed.

(** A walk that only meets passing objects passes. *)
Lemma find_prop_passes (H : heap) (k : string) (S : loc -> Prop) :
  (forall l o, S l -> H !! l = Some o ->
               passes (get_own o k) /\ forall q, proto o = Some q -> S q) ->
  forall fuel l, S l -> passes (find_prop fuel H l k).
Proof.
  intros HS. induction fuel as [|f IH]; intros l Hl; simpl; [exact I|].
  destruct (H !! l) as [o|] eqn:E; [|exact I].
  destruct (HS _ _ Hl E) as [Hpass Hnext].
  destruct (get_own o k) as [p|]; [exact Hpass|].
  destruct (proto o) as [q|]; [|exact I].
  apply IH, Hnext. reflexivity.
Qed.

Lemma chain_passes o k fuel :
  this_ok o -> proto o = Some P -> k <> "__proto__" ->
  passes (find_prop fuel (h ++ [o]) (length h) k).
Proof.
  intros Hok Hproto Hk.
  destruct (wf_object_prototype _ Hwf) as (o0 & H0 & Hp0 & Hs0).
  destruct (wf_error_prototype _ Hwf) as (o1 & H1 & Hp1 & Hs1).
  apply (find_prop_passes _ _
           (fun l => l = length h \/ l = P \/ l = ErrorPrototype \/ l = ObjectPrototype));
    [|left; reflexivity].
  intros l o' [->|[->|[->| ->]]] Hl.
  - rewrite last_lookup in Hl. injection Hl as <-.
    split; [apply writable_passes, Hok|].
    intros q Hq. right. left. congruence.
  - rewrite (old_lookup _ _ _ _ HP) in Hl. injection Hl as <-.
    split; [apply settable_passes; assumption|].
    intros q Hq. right. right. left. congruence.
  - rewrite (old_lookup _ _ _ _ H1) in Hl. injection Hl as <-.
    split; [apply settable_passes; assumption|].
    intros q Hq. right. right. right. congruence.
  - rewrite (old_lookup _ _ _ _ H0) in Hl. injection Hl as <-.
    split; [apply settable_passes; assumption|].
    intros q Hq. congruence.
Qed.

(** With the chain unspoilt, a write of a key other than [__proto__]
    succeeds. *)
Lemma put_total o k v :
  this_ok o -> proto o = Some P -> k <> "__proto__" ->
  exists H, put (length h) k v (h ++ [o]) = Normal tt H.
Proof.
  intros Hok Hproto Hk. unfold put. rewrite last_lookup.
  pose proof (chain_passes o k (length (h ++ [o])) Hok Hproto Hk) as Hpass.
  pose proof (writable_passes o k (this_writable _ Hok)) as Hown.
  destruct (find_prop _ _ _ _) as [[v0 [|] e0 c0|]|]; simpl in Hpass;
    try discriminate; try contradiction;
    destruct (get_own o k) as [[v1 [|] e1 c1|]|]; simpl in Hown;
    try discriminate; try contradiction; eauto.
Qed.

Lemma assign_total kvs : forall o,
  this_ok o -> proto o = Some P -> ~ In "__proto__" (map fst kvs) ->
  exists H, assign_entries (length h) kvs (h ++ [o]) = Normal tt H.
Proof.
  induction kvs as [|[k v] kvs IH]; intros o Hok Hproto Hnot.
  - simpl. eexists. reflexivity.
  - simpl in Hnot. cbn [assign_entries]. unfold bind.
    assert (Hk : k <> "__proto__") by (intros ->; tauto).
    destruct (put_total o k v Hok Hproto Hk) as (H & Hput).
    pose proof (put_last h (wf_objects _ Hwf) o k v Hok) as Hlast.
    rewrite Hput in *.
    destruct Hlast as (o1 & -> & Hok1 & _ & Hproto1).
    apply IH; [exact Hok1| |tauto].
    destruct (Hproto1 Hk) as [-> _]. exact Hproto.
Qed.

(** The merge and the assignment of [name], on the last object. *)
Lemma merge_and_name_last tag kvs o :
  this_ok o ->
  match merge_and_name (length h) tag kvs (h ++ [o]) with
  | Normal l H =>
      l = length h /\
      exists inst, H = h ++ [inst] /\ this_ok inst /\
        (forall k, k <> "__proto__" ->
           get_own inst k
           = lookup_prop k (write_prop "name" (VStr tag) (write_all kvs (props o)))) /\
        (~ In "__proto__" (map fst kvs) ->
         proto inst = proto o /\
         props inst = write_prop "name" (VStr tag) (write_all kvs (props o)))
  | Throw _ H => exists inst, H = h ++ [inst] /\ this_ok inst
  end.
Proof.
  intros Hok. unfold merge_and_name, bind.
  pose proof (assign_last h (wf_objects _ Hwf) kvs o Hok) as Ha.
  destruct (assign_entries _ _ _) as [[] H|e H]; [|exact Ha].
  destruct Ha as (o1 & -> & Hok1 & Hlook1 & Hproto1).
  pose proof (put_last h (wf_objects _ Hwf) o1 "name" (VStr tag) Hok1) as Hp.
  destruct (put _ _ _ _) as [[] H|e H]; [|eauto].
  destruct Hp as (o2 & -> & Hok2 & Hlook2 & Hproto2).
  split; [reflexivity|]. exists o2.
  split; [reflexivity|]. split; [exact Hok2|]. split.
  - intros k Hk. rewrite (Hlook2 k Hk). rewrite !lookup_write.
    destruct (String.eqb k "name").
    + rewrite <- (Hlook1 "name") by discriminate. reflexivity.
    + apply Hlook1, Hk.
  - intros Hnot. destruct Hproto2 as [-> ->]; [discriminate|].
    destruct (Hproto1 Hnot) as [-> ->]. auto.
Qed.

Lemma merge_and_name_total tag kvs o :
  this_ok o -> proto o = Some P -> ~ In "__proto__" (map fst kvs) ->
  exists H, merge_and_name (length h) tag kvs (h ++ [o]) = Normal (length h) H.
Proof.
  intros Hok Hproto Hnot. unfold merge_and_name, bind.
  destruct (assign_total kvs o Hok Hproto Hnot) as (H & Ha).
  pose proof (assign_last h (wf_objects _ Hwf) kvs o Hok) as Hl.
  rewrite Ha in *. destruct Hl as (o1 & -> & Hok1 & _ & Hproto1).
  assert (Hp1 : proto o1 = Some P)
    by (destruct (Hproto1 Hnot) as [-> _]; assumption).
  destruct (put_total o1 "name" (VStr tag) Hok1 Hp1) as (H' & ->); [discriminate|].
  eexists. reflexivity.
Qed.

End Pristine.

(** ** The constructor, unfolded *)

Section Constructor.

Variables (h : heap) (V : loc) (c : obj) (tag : string) (P : loc).
Hypothesis HV : h !! V = Some c.
Hypothesis Hkind : okind c = TaggedClass tag.
Hypothesis Hprototype : get_own c "prototype" = Some (Data (VObj P) false false false).

Lemma this_ok_base trace : this_ok (base_instance P tag trace).
Proof.
  split.
  - reflexivity.
  - unfold own_keys; simpl.
    repeat constructor; simpl; intros H;
      repeat (destruct H as [H|H]; [discriminate|]); exact H.
  - intros k p. unfold get_own; simpl.
    repeat (destruct (String.eqb k _); [intros [= <-]; eauto|]).
    discriminate.
Qed.

(** [super(tag)], the field initializer and the reset of the prototype
    leave [base_instance] as the last object of the heap; the rest is
    [merge_and_name]. *)
Lemma new_unfold arg trace :
  new V arg trace h
  = let h1 := h ++ [base_instance P tag trace] in
    match arg with
    | None => merge_and_name (length h) tag [] h1
    | Some p =>
        match h1 !! p with
        | Some s => merge_and_name (length h) tag (enumerable_entries (props s)) h1
        | None => Throw TypeError h1
        end
    end.
Proof.
  unfold new, construct, construct_on, trace_only.
  rewrite HV. cbn [fmap option_fmap option_map].
  rewrite Hkind.
  unfold bind at 1. unfold Error_construct, bind at 1, Get at 1.
  rewrite (get_own_data _ _ _ _ _ _ _ _ HV Hprototype).
  unfold alloc.
  unfold bind at 1. unfold create_data_property.
  rewrite last_lookup. cbn [get_own props lookup_prop String.eqb Ascii.eqb Bool.eqb].
  rewrite last_insert.
  change (set_own _ "_tag" _) with (base_instance P tag trace).
  unfold bind at 1. unfold Get at 1.
  rewrite (get_own_data _ _ _ _ _ _ _ _
             (old_lookup _ [base_instance P tag trace] _ _ HV) Hprototype).
  unfold bind at 1. unfold Object_setPrototypeOf, ordinary_set_prototype_of.
  rewrite last_lookup. cbn [proto base_instance same_proto].
  rewrite Nat.eqb_refl.
  destruct arg as [p|]; cbn zeta.
  - unfold bind at 1. unfold Object_assign.
    destruct ((h ++ [base_instance P tag trace]) !! p) as [s|]; [|reflexivity].
    reflexivity.
  - reflexivity.
Qed.

End Constructor.

(** ** Well-formedness is an invariant *)

Section Invariant.

Ltac settle_keys :=
  unfold writable_or_absent, get_own; simpl;
  repeat match goal with
         | |- context [String.eqb ?k ?s] =>
             let E := fresh "E" in
             destruct (String.eqb k s) eqn:E;
             [try (apply String.eqb_eq in E; congruence)|]
         end;
  try reflexivity; try discriminate.

Lemma wf_initial : wf initial_heap.
Proof.
  split.
  - eexists. split; [reflexivity|]. split; [reflexivity|].
    intros k Hk. settle_keys.
  - eexists. split; [reflexivity|]. split; [reflexivity|].
    intros k Hk. settle_keys.
  - eexists. repeat split; reflexivity.
  - intros V o tag HV Hk.
    do 4 (destruct V as [|V]; [injection HV as <-; discriminate|]).
    discriminate.
  - intros l o Hl.
    do 4 (destruct l as [|l];
          [injection Hl as <-; split;
           [unfold own_keys; simpl; repeat constructor; simpl; intuition discriminate
           |intros k; settle_keys]|]).
    discriminate.
Qed.

Lemma class_ok_extend h ext V o : class_ok h V o -> class_ok (h ++ ext) V o.
Proof.
  intros (P & op & Hpr & Hlt & HP & Hproto & Hset & Hctor).
  exists P, op. repeat split; try assumption. apply old_lookup, HP.
Qed.

(** Appending proper objects keeps the heap well-formed, provided the
    classes among them come with their prototype objects. *)
Lemma wf_extend h ext :
  wf h ->
  (forall o, In o ext -> obj_ok o) ->
  (forall V o tag, (h ++ ext) !! V = Some o -> length h <= V ->
                   okind o = TaggedClass tag -> class_ok (h ++ ext) V o) ->
  wf (h ++ ext).
Proof.
  intros [(o0 & H0 & Hp0 & Hs0) (o1 & H1 & Hp1 & Hs1) (o2 & H2 & Hk2 & Hpr2) Hcls Hobj]
         Hnew Hnewcls.
  split.
  - exists o0. auto using old_lookup.
  - exists o1. auto using old_lookup.
  - exists o2. auto using old_lookup.
  - intros V o tag HV Hk.
    destruct (Nat.lt_ge_cases V (length h)) as [Hlt|Hge].
    + rewrite lookup_app_l in HV by exact Hlt.
      apply class_ok_extend. eapply Hcls; eassumption.
    + eapply Hnewcls; eassumption.
  - intros l o Hl. apply lookup_app_Some in Hl as [Hl|[_ Hl]].
    + eapply Hobj, Hl.
    + apply Hnew. apply list_elem_of_In. eapply list_elem_of_lookup_2, Hl.
Qed.

Lemma wf_length h : wf h -> ErrorCtor < length h.
Proof.
  intros Hwf. destruct (wf_error _ Hwf) as (o & Ho & _).
  eapply lookup_lt_Some, Ho.
Qed.

Lemma TaggedError_wf tag h : wf h -> wf (heap_of (TaggedError tag h)).
Proof.
  intros Hwf. unfold TaggedError. cbn [heap_of].
  apply wf_extend; [exact Hwf| |].
  - intros o [<-|[<-|[]]]; (split;
      [unfold own_keys; simpl; repeat constructor; simpl; intuition discriminate
      |intros k; settle_keys]).
  - intros V o tg HV Hge Hk.
    apply lookup_app_Some in HV as [HV|[_ HV]];
      [apply lookup_lt_Some in HV; lia|].
    destruct (V - length h) as [|[|n]] eqn:EV; simpl in HV;
      [injection HV as <-; discriminate|injection HV as <-|discriminate].
    assert (V = S (length h)) as -> by lia.
    eexists (length h), _.
    split; [reflexivity|]. split; [apply wf_length, Hwf|].
    split; [apply list_lookup_middle; reflexivity|].
    split; [reflexivity|]. split; [|reflexivity].
    intros k Hne. settle_keys.
Qed.

(** Whatever [new V(props)] does, it leaves the heap as it was or with
    one more plain object. *)
Lemma new_frame h V arg trace :
  wf h ->
  heap_of (new V arg trace h) = h \/
  exists inst, heap_of (new V arg trace h) = h ++ [inst] /\ this_ok inst.
Proof.
  intros Hwf.
  destruct (h !! V) as [c|] eqn:HV;
    [|left; unfold new, construct, construct_on; rewrite HV; reflexivity].
  destruct (okind c) as [| |tag|] eqn:Hk;
    try (left; unfold new, construct, construct_on; rewrite HV; simpl; rewrite Hk;
         reflexivity).
  destruct (wf_classes _ Hwf _ _ _ HV Hk) as (P & op & Hpr & _).
  right. rewrite (new_unfold _ _ _ _ _ HV Hk Hpr). cbn zeta.
  pose proof (this_ok_base tag P trace) as Hbase.
  destruct arg as [p|].
  - destruct (_ !! p) as [s|]; [|exists (base_instance P tag trace); auto].
    pose proof (merge_and_name_last h Hwf tag (enumerable_entries (props s)) _ Hbase) as Hm.
    destruct (merge_and_name _ _ _ _) as [l H|e H]; cbn [heap_of].
    + destruct Hm as (_ & inst & -> & Hok & _). eauto.
    + exact Hm.
  - pose proof (merge_and_name_last h Hwf tag [] _ Hbase) as Hm.
    destruct (merge_and_name _ _ _ _) as [l H|e H]; cbn [heap_of].
    + destruct Hm as (_ & inst & -> & Hok & _). eauto.
    + exact Hm.
Qed.

Lemma wf_plain h o : wf h -> obj_ok o -> okind o = Plain -> wf (h ++ [o]).
Proof.
  intros Hwf Hok Hplain. apply wf_extend; [exact Hwf| |].
  - intros o' [<-|[]]. exact Hok.
  - intros V o' tag HV Hge Hk.
    apply lookup_app_Some in HV as [HV|[_ HV]];
      [apply lookup_lt_Some in HV; lia|].
    destruct (V - length h) as [|n]; simpl in HV; [|destruct n; discriminate].
    injection HV as <-. congruence.
Qed.

Lemma new_wf h V arg trace : wf h -> wf (heap_of (new V arg trace h)).
Proof.
  intros Hwf. destruct (new_frame h V arg trace Hwf) as [->|(inst & -> & Hok)];
    [exact Hwf|].
  apply wf_plain; [exact Hwf|apply this_ok_obj_ok, Hok|apply Hok].
Qed.

Lemma literal_fields_ok fields : forall ps,
  List.NoDup (map fst ps) ->
  (forall k, lookup_prop k ps <> Some ProtoAccessor) ->
  let ps' := fold_left
               (fun ps kv => store_prop (fst kv) (Data (snd kv) true true true) ps)
               fields ps in
  List.NoDup (map fst ps') /\ forall k, lookup_prop k ps' <> Some ProtoAccessor.
Proof.
  induction fields as [|[k v] fields IH]; intros ps Hnd Hacc; simpl.
  - auto.
  - apply IH; [apply store_prop_NoDup, Hnd|].
    intros k'. rewrite lookup_store.
    destruct (String.eqb k' k); [discriminate|apply Hacc].
Qed.

Lemma literal_wf fields h : wf h -> wf (heap_of (literal fields h)).
Proof.
  intros Hwf. unfold literal, alloc. cbn [heap_of].
  destruct (literal_fields_ok fields [])
    as [Hnd Hacc]; [constructor|discriminate|].
  apply wf_plain; [exact Hwf| |reflexivity].
  split; [exact Hnd|]. intros k Hk. destruct (Hacc _ Hk).
Qed.

Lemma run_wf a h : wf h -> wf (run a h).
Proof.
  intros Hwf.
  destruct a; simpl; [apply TaggedError_wf|apply new_wf|apply literal_wf];
    exact Hwf.
Qed.

Lemma run_extends a h : wf h -> exists ext, run a h = h ++ ext.
Proof.
  intros Hwf. destruct a as [tag|V arg trace|fields]; simpl.
  - eexists. reflexivity.
  - destruct (new_frame h V arg trace Hwf) as [->|(inst & -> & _)].
    + exists []. symmetry. apply app_nil_r.
    + eexists. reflexivity.
  - eexists. reflexivity.
Qed.

Lemma steps_wf h h' : steps h h' -> wf h -> wf h'.
Proof. induction 1; auto using run_wf. Qed.

Lemma steps_extends h h' : steps h h' -> wf h -> exists ext, h' = h ++ ext.
Proof.
  induction 1 as [h|a h h' _ IH]; intros Hwf.
  - exists []. symmetry. apply app_nil_r.
  - destruct (run_extends a h Hwf) as (ext & Hrun).
    destruct (IH (run_wf a h Hwf)) as (ext' & ->).
    exists (ext ++ ext'). rewrite Hrun, app_assoc. reflexivity.
Qed.

(** A class stays the class it is. *)
Lemma variant_steps h h' V tag :
  wf h -> steps h h' -> variant h V tag -> variant h' V tag.
Proof.
  intros Hwf Hsteps Hv. destruct (steps_extends _ _ Hsteps Hwf) as (ext & ->).
  unfold variant in *. destruct (h !! V) as [c|] eqn:HV; [|discriminate].
  rewrite (old_lookup _ ext _ _ HV). exact Hv.
Qed.

(** What the factory returns is a class with its tag. *)
Lemma TaggedError_variant tag h :
  exists V h', TaggedError tag h = Normal V h' /\ variant h' V tag /\
               length h < V /\ V < length h'.
Proof.
  eexists _, _. split; [reflexivity|]. unfold variant. split; [|split].
  - rewrite lookup_app_r by lia. rewrite Nat.sub_succ_l, Nat.sub_diag by lia.
    reflexivity.
  - lia.
  - rewrite length_app. simpl. lia.
Qed.

End Invariant.

(** ** What [new V(props)] builds *)

Section Instances.

Lemma variant_class h V tag :
  wf h -> variant h V tag ->
  exists c P op,
    h !! V = Some c /\ okind c = TaggedClass tag /\
    get_own c "prototype" = Some (Data (VObj P) false false false) /\
    prototype_of h V = Some P /\ ErrorCtor < P /\
    h !! P = Some op /\ proto op = Some ErrorPrototype /\ settable op /\
    get_own op "constructor" = Some (Data (VObj V) true false true).
Proof.
  intros Hwf Hv. unfold variant in Hv.
  destruct (h !! V) as [c|] eqn:HV; [|discriminate].
  injection Hv as Hk.
  destruct (wf_classes _ Hwf _ _ _ HV Hk) as (P & op & Hpr & Hlt & HP & Hproto & Hset & Hctor).
  exists c, P, op. repeat split; try assumption.
  unfold prototype_of, own_value, own_prop. rewrite HV, Hpr. reflexivity.
Qed.

Lemma carries_proto_key_false h arg :
  carries_proto_key h arg = false -> ~ In "__proto__" (map fst (entries_of h arg)).
Proof.
  unfold carries_proto_key. intros Hf Hin.
  assert (existsb (String.eqb "__proto__") (map fst (entries_of h arg)) = true) as Ht.
  { apply existsb_exists. exists "__proto__". split; [exact Hin|reflexivity]. }
  congruence.
Qed.

(** Every instance that [new] returns is the new last object of the
    heap and reads, at every key but [__proto__], as [instance_props]. *)
Lemma new_spec h V tag arg trace :
  wf h -> variant h V tag -> props_in h arg ->
  match new V arg trace h with
  | Normal o H =>
      o = length h /\
      exists inst, H = h ++ [inst] /\ this_ok inst /\
        (forall k, k <> "__proto__" ->
           get_own inst k
           = lookup_prop k (instance_props tag trace (entries_of h arg))) /\
        (carries_proto_key h arg = false ->
         proto inst = prototype_of h V /\
         props inst = instance_props tag trace (entries_of h arg))
  | Throw _ _ => True
  end.
Proof.
  intros Hwf Hv Hin.
  destruct (variant_class _ _ _ Hwf Hv)
    as (c & P & op & HV & Hk & Hpr & HPo & _ & HP & Hproto & Hset & _).
  rewrite (new_unfold _ _ _ _ _ HV Hk Hpr). cbn zeta.
  pose proof (this_ok_base tag P trace) as Hbase.
  assert (Hgen : forall kvs,
    kvs = entries_of h arg ->
    match merge_and_name (length h) tag kvs (h ++ [base_instance P tag trace]) with
    | Normal o H =>
        o = length h /\
        exists inst, H = h ++ [inst] /\ this_ok inst /\
          (forall k, k <> "__proto__" ->
             get_own inst k
             = lookup_prop k (instance_props tag trace (entries_of h arg))) /\
          (carries_proto_key h arg = false ->
           proto inst = prototype_of h V /\
           props inst = instance_props tag trace (entries_of h arg))
    | Throw _ _ => True
    end).
  { intros kvs ->.
    pose proof (merge_and_name_last h Hwf tag (entries_of h arg) _ Hbase) as Hm.
    destruct (merge_and_name _ _ _ _) as [l H|e H]; [|exact I].
    destruct Hm as (-> & inst & -> & Hok & Hlook & Hp).
    split; [reflexivity|]. exists inst.
    split; [reflexivity|]. split; [exact Hok|]. split; [exact Hlook|].
    intros Hno. rewrite HPo. apply Hp, carries_proto_key_false, Hno. }
  destruct arg as [p|].
  - destruct Hin as (po & Hpo). rewrite (old_lookup _ _ _ _ Hpo).
    apply Hgen. unfold entries_of. rewrite Hpo. reflexivity.
  - apply Hgen. reflexivity.
Qed.

(** With no own enumerable [__proto__] in the argument, [new] returns. *)
Lemma new_total h V tag arg trace :
  wf h -> variant h V tag -> props_in h arg ->
  carries_proto_key h arg = false ->
  exists H, new V arg trace h = Normal (length h) H.
Proof.
  intros Hwf Hv Hin Hno.
  destruct (variant_class _ _ _ Hwf Hv)
    as (c & P & op & HV & Hk & Hpr & HPo & _ & HP & Hproto & Hset & _).
  rewrite (new_unfold _ _ _ _ _ HV Hk Hpr). cbn zeta.
  pose proof (this_ok_base tag P trace) as Hbase.
  apply carries_proto_key_false in Hno.
  destruct arg as [p|].
  - destruct Hin as (po & Hpo). rewrite (old_lookup _ _ _ _ Hpo).
    unfold entries_of in Hno. rewrite Hpo in Hno.
    apply (merge_and_name_total h P op Hwf HP Hproto Hset); auto.
  - apply (merge_and_name_total h P op Hwf HP Hproto Hset); auto.
Qed.

(** The two together, for the common case. *)
Lemma new_result h V tag arg trace :
  wf h -> variant h V tag -> props_in h arg ->
  carries_proto_key h arg = false ->
  exists inst,
    new V arg trace h = Normal (length h) (h ++ [inst]) /\
    this_ok inst /\
    proto inst = prototype_of h V /\
    props inst = instance_props tag trace (entries_of h arg).
Proof.
  intros Hwf Hv Hin Hno.
  destruct (new_total h V tag arg trace Hwf Hv Hin Hno) as (H & Hnew).
  pose proof (new_spec h V tag arg trace Hwf Hv Hin) as Hs.
  rewrite Hnew in Hs. destruct Hs as (_ & inst & -> & Hok & Hlook & Hp).
  destruct (Hp Hno) as [Hproto Hprops]. exists inst. auto.
Qed.

(** The chain of an object whose prototype is the prototype object of
    a class. *)
Lemma instance_chain H l inst P op :
  wf H -> H !! l = Some inst -> proto inst = Some P ->
  H !! P = Some op -> proto op = Some ErrorPrototype ->
  proto_chain (length H) H l = [P; ErrorPrototype; ObjectPrototype].
Proof.
  intros Hwf Hl Hp HP Hop.
  destruct (wf_object_prototype _ Hwf) as (o0 & H0 & Hp0 & _).
  destruct (wf_error_prototype _ Hwf) as (o1 & H1 & Hp1 & _).
  pose proof (wf_length _ Hwf) as Hlen.
  destruct (length H) as [|[|[|f]]]; [unfold ErrorCtor in Hlen; lia..|].
  cbn [proto_chain]. rewrite Hl, Hp, HP, Hop, H1, Hp1.
  destruct f; [reflexivity|]. cbn [proto_chain]. rewrite H0, Hp0. reflexivity.
Qed.

Lemma instance_of_Error H l inst P op :
  wf H -> H !! l = Some inst -> proto inst = Some P ->
  H !! P = Some op -> proto op = Some ErrorPrototype ->
  instance_of H (VObj l) ErrorCtor = Some true.
Proof.
  intros Hwf Hl Hp HP Hop. unfold instance_of.
  destruct (wf_error _ Hwf) as (o2 & H2 & Hk2 & Hpr2).
  rewrite H2, Hk2, (get_own_data _ _ _ _ _ _ _ _ H2 Hpr2).
  rewrite (instance_chain _ _ _ _ _ Hwf Hl Hp HP Hop).
  cbn [existsb]. destruct (Nat.eqb ErrorPrototype P); reflexivity.
Qed.

(** [instanceof] against a class compares prototype objects. *)
Lemma instance_of_variant H l inst P W tag :
  wf H -> variant H W tag ->
  H !! l = Some inst -> proto inst = Some P ->
  (exists op, H !! P = Some op /\ proto op = Some ErrorPrototype) ->
  exists PW, prototype_of H W = Some PW /\
             instance_of H (VObj l) W = Some (Nat.eqb PW P).
Proof.
  intros Hwf Hv Hl Hp (op & HP & Hop).
  destruct (variant_class _ _ _ Hwf Hv)
    as (c & PW & opW & HW & Hk & Hpr & HPo & Hlt & _).
  exists PW. split; [exact HPo|]. unfold instance_of.
  rewrite HW, Hk, (get_own_data _ _ _ _ _ _ _ _ HW Hpr).
  rewrite (instance_chain _ _ _ _ _ Hwf Hl Hp HP Hop).
  cbn [existsb]. unfold ErrorPrototype, ObjectPrototype, ErrorCtor in *.
  destruct (Nat.eqb_spec PW 1); [lia|]. destruct (Nat.eqb_spec PW 0); [lia|].
  rewrite !orb_false_r. reflexivity.
Qed.

(** Two classes never share a prototype object. *)
Lemma prototype_of_inj h V W tagV tagW P :
  wf h -> variant h V tagV -> variant h W tagW ->
  prototype_of h V = Some P -> prototype_of h W = Some P -> V = W.
Proof.
  intros Hwf HvV HvW HPV HPW.
  destruct (variant_class _ _ _ Hwf HvV) as (? & P1 & op1 & _ & _ & _ & HP1 & _ & Ho1 & _ & _ & Hc1).
  destruct (variant_class _ _ _ Hwf HvW) as (? & P2 & op2 & _ & _ & _ & HP2 & _ & Ho2 & _ & _ & Hc2).
  rewrite HPV in HP1. rewrite HPW in HP2.
  injection HP1 as <-. injection HP2 as <-.
  rewrite Ho1 in Ho2. injection Ho2 as <-. congruence.
Qed.

Lemma prototype_of_extend h ext V P :
  prototype_of h V = Some P -> prototype_of (h ++ ext) V = Some P.
Proof.
  unfold prototype_of, own_value, own_prop.
  destruct (h !! V) as [c|] eqn:HV; [|discriminate].
  rewrite (old_lookup _ ext _ _ HV). auto.
Qed.

End Instances.

(** ** Reading an instance *)

Section Reading.

Lemma written_data v old : exists e c, written v old = Data v true e c.
Proof. destruct old as [[]|]; simpl; eauto. Qed.

Lemma instance_props_name tag trace kvs :
  exists e c,
    lookup_prop "name" (instance_props tag trace kvs) = Some (Data (VStr tag) true e c).
Proof.
  unfold instance_props. rewrite lookup_write_eq.
  destruct (written_data (VStr tag)
              (lookup_prop "name"
                 (write_all kvs
                    [("message", Data (VStr tag) true false true);
                     ("stack", Data (VStr trace) true false true);
                     ("_tag", Data (VStr tag) true true true)])))
    as (e & c & ->).
  eauto.
Qed.

Lemma instance_props_entry tag trace kvs k v :
  List.NoDup (map fst kvs) -> In (k, v) kvs -> k <> "name" ->
  exists e c,
    lookup_prop k (instance_props tag trace kvs) = Some (Data v true e c).
Proof.
  intros Hnd Hin Hk. unfold instance_props.
  rewrite lookup_write_ne by exact Hk.
  rewrite (write_all_entry _ _ _ _ Hnd Hin).
  destruct (written_data v
              (lookup_prop k
                 [("message", Data (VStr tag) true false true);
                  ("stack", Data (VStr trace) true false true);
                  ("_tag", Data (VStr tag) true true true)]))
    as (e & c & ->).
  eauto.
Qed.

Lemma instance_props_default tag trace kvs k :
  ~ In k (map fst kvs) -> k <> "name" ->
  lookup_prop k (instance_props tag trace kvs)
  = lookup_prop k [("message", Data (VStr tag) true false true);
                   ("stack", Data (VStr trace) true false true);
                   ("_tag", Data (VStr tag) true true true)].
Proof.
  intros Hnot Hk. unfold instance_props.
  rewrite lookup_write_ne by exact Hk. apply write_all_other, Hnot.
Qed.

(** A default is an own data property whatever is merged. *)
Lemma write_all_keeps kvs : forall ps k v w e c,
  lookup_prop k ps = Some (Data v w e c) ->
  exists v' e' c', lookup_prop k (write_all kvs ps) = Some (Data v' true e' c') \/
                   lookup_prop k (write_all kvs ps) = Some (Data v' w e' c').
Proof.
  induction kvs as [|[k0 v0] kvs IH]; intros ps k v w e c Hk; simpl.
  - exists v, e, c. right. exact Hk.
  - destruct (String.eqb k k0) eqn:E.
    + apply String.eqb_eq in E; subst k0.
      destruct (written_data v0 (lookup_prop k ps)) as (e1 & c1 & Hw).
      assert (Hk1 : lookup_prop k (write_prop k v0 ps) = Some (Data v0 true e1 c1))
        by (rewrite lookup_write_eq, Hw; reflexivity).
      destruct (IH _ _ _ _ _ _ Hk1) as (v' & e' & c' & [H|H]); eauto 6.
    + apply String.eqb_neq in E.
      assert (Hk1 : lookup_prop k (write_prop k0 v0 ps) = Some (Data v w e c))
        by (rewrite lookup_write_ne by exact E; exact Hk).
      apply (IH _ _ _ _ _ _ Hk1).
Qed.

Lemma instance_props_has tag trace kvs k :
  In k reserved ->
  exists v e c, lookup_prop k (instance_props tag trace kvs) = Some (Data v true e c).
Proof.
  intros Hk. destruct (String.eqb k "name") eqn:E.
  - apply String.eqb_eq in E; subst k.
    destruct (instance_props_name tag trace kvs) as (e & c & H). eauto.
  - apply String.eqb_neq in E. unfold instance_props.
    rewrite lookup_write_ne by exact E.
    assert (exists v e c,
              lookup_prop k
                [("message", Data (VStr tag) true false true);
                 ("stack", Data (VStr trace) true false true);
                 ("_tag", Data (VStr tag) true true true)]
              = Some (Data v true e c)) as (v & e & c & H0).
    { destruct Hk as [<-|[<-|[<-|[<-|[]]]]]; simpl; eauto; congruence. }
    destruct (write_all_keeps kvs _ _ _ _ _ _ H0) as (v' & e' & c' & [H|H]); eauto.
Qed.

Lemma entries_NoDup h arg : wf h -> List.NoDup (map fst (entries_of h arg)).
Proof.
  intros Hwf. unfold entries_of. destruct arg as [p|]; [|constructor].
  destruct (h !! p) as [po|] eqn:Hp; [|constructor].
  apply enumerable_entries_NoDup. exact (proj1 (wf_objects _ Hwf _ _ Hp)).
Qed.

Lemma own_value_last h inst k v w e c :
  get_own inst k = Some (Data v w e c) ->
  own_value (h ++ [inst]) (length h) k = Some v /\ get (h ++ [inst]) (length h) k = v.
Proof.
  intros Hk. split.
  - unfold own_value, own_prop. rewrite last_lookup, Hk. reflexivity.
  - eapply get_own_data; [apply last_lookup|exact Hk].
Qed.

(** From a factory call to any later heap. *)
Lemma factory_later h tag V h1 h2 :
  wf h -> TaggedError tag h = Normal V h1 -> steps h1 h2 ->
  wf h2 /\ variant h2 V tag.
Proof.
  intros Hwf Hf Hsteps.
  assert (Hwf1 : wf h1).
  { pose proof (TaggedError_wf tag h Hwf) as H. rewrite Hf in H. exact H. }
  destruct (TaggedError_variant tag h) as (V' & h' & Hf' & Hv & _).
  rewrite Hf in Hf'. injection Hf' as <- <-.
  split; [eapply steps_wf; eassumption|].
  eapply variant_steps; eassumption.
Qed.

(** An instance built without an own enumerable [__proto__]. *)
Lemma new_instance h V tag arg trace :
  wf h -> variant h V tag -> props_in h arg ->
  carries_proto_key h arg = false ->
  exists inst P op,
    new V arg trace h = Normal (length h) (h ++ [inst]) /\
    wf (h ++ [inst]) /\
    (h ++ [inst]) !! length h = Some inst /\
    props inst = instance_props tag trace (entries_of h arg) /\
    proto inst = Some P /\
    prototype_of (h ++ [inst]) V = Some P /\
    (h ++ [inst]) !! P = Some op /\ proto op = Some ErrorPrototype.
Proof.
  intros Hwf Hv Hin Hno.
  destruct (new_result h V tag arg trace Hwf Hv Hin Hno)
    as (inst & Hnew & Hok & Hproto & Hprops).
  destruct (variant_class _ _ _ Hwf Hv)
    as (c & P & op & _ & _ & _ & HPo & _ & HP & Hop & _).
  exists inst, P, op. split; [exact Hnew|]. split.
  { pose proof (new_wf h V arg trace Hwf) as H. rewrite Hnew in H. exact H. }
  split; [apply last_lookup|]. split; [exact Hprops|].
  split; [congruence|]. split; [apply prototype_of_extend, HPo|].
  split; [apply old_lookup, HP|exact Hop].
Qed.

(** Any instance [new] returns, whatever the argument. *)
Lemma new_normal h V tag arg trace o h' :
  wf h -> variant h V tag -> props_in h arg ->
  new V arg trace h = Normal o h' ->
  exists inst,
    o = length h /\ h' = h ++ [inst] /\ this_ok inst /\
    forall k, k <> "__proto__" ->
      get_own inst k = lookup_prop k (instance_props tag trace (entries_of h arg)).
Proof.
  intros Hwf Hv Hin Hnew.
  pose proof (new_spec h V tag arg trace Hwf Hv Hin) as Hs.
  rewrite Hnew in Hs. destruct Hs as (-> & inst & -> & Hok & Hlook & _).
  exists inst. auto.
Qed.

End Reading.

(** ** Instances and classes *)

Section Exclusive.

Lemma variant_extend h ext V tag : variant h V tag -> variant (h ++ ext) V tag.
Proof.
  unfold variant. destruct (h !! V) as [c|] eqn:HV; [|discriminate].
  rewrite (old_lookup _ ext _ _ HV). auto.
Qed.

(** Built without an own enumerable [__proto__], an instance belongs to
    its class, to [Error], and to no other class. *)
Lemma instance_exclusive h V tag arg trace :
  wf h -> variant h V tag -> props_in h arg ->
  carries_proto_key h arg = false ->
  exists o h',
    new V arg trace h = Normal o h' /\
    instance_of h' (VObj o) V = Some true /\
    instance_of h' (VObj o) ErrorCtor = Some true /\
    forall W tagW, variant h W tagW -> W <> V ->
                   instance_of h' (VObj o) W = Some false.
Proof.
  intros Hwf Hv Hin Hno.
  destruct (new_instance h V tag arg trace Hwf Hv Hin Hno)
    as (inst & P & op & Hnew & Hwf' & Hl & _ & Hproto & HPo & HP & Hop).
  exists (length h), (h ++ [inst]). split; [exact Hnew|].
  assert (Hchain : exists op, (h ++ [inst]) !! P = Some op /\
                              proto op = Some ErrorPrototype) by eauto.
  split; [|split].
  - destruct (instance_of_variant _ _ _ _ _ _ Hwf' (variant_extend _ [inst] _ _ Hv)
                Hl Hproto Hchain) as (PW & HPW & ->).
    rewrite HPo in HPW. injection HPW as <-. rewrite Nat.eqb_refl. reflexivity.
  - eapply instance_of_Error; eassumption.
  - intros W tagW HvW Hne.
    pose proof (variant_extend _ [inst] _ _ HvW) as HvW'.
    destruct (instance_of_variant _ _ _ _ _ _ Hwf' HvW' Hl Hproto Hchain)
      as (PW & HPW & ->).
    destruct (Nat.eqb_spec PW P) as [->|]; [|reflexivity].
    exfalso. apply Hne.
    eapply (prototype_of_inj (h ++ [inst]) W V); eauto using variant_extend.
Qed.

End Exclusive.

(** ** Construction on any host *)

Section AnyChain.

Variables (h : heap) (Q : loc).
Hypothesis Hwf : wf h.
Hypothesis Hpass : forall o k fuel,
  this_ok o -> proto o = Some Q -> k <> "__proto__" ->
  passes (find_prop fuel (h ++ [o]) (length h) k).

Lemma put_total_on o k v :
  this_ok o -> proto o = Some Q -> k <> "__proto__" ->
  exists H, put (length h) k v (h ++ [o]) = Normal tt H.
Proof.
  intros Hok Hproto Hk. unfold put. rewrite last_lookup.
  pose proof (Hpass o k (length (h ++ [o])) Hok Hproto Hk) as Hp.
  pose proof (writable_passes o k (this_writable _ Hok)) as Hown.
  destruct (find_prop _ _ _ _) as [[v0 [|] e0 c0|]|]; simpl in Hp;
    try discriminate; try contradiction;
    destruct (get_own o k) as [[v1 [|] e1 c1|]|]; simpl in Hown;
    try discriminate; try contradiction; eauto.
Qed.

Lemma assign_total_on kvs : forall o,
  this_ok o -> proto o = Some Q -> ~ In "__proto__" (map fst kvs) ->
  exists H, assign_entries (length h) kvs (h ++ [o]) = Normal tt H.
Proof.
  induction kvs as [|[k v] kvs IH]; intros o Hok Hproto Hnot.
  - simpl. eexists. reflexivity.
  - simpl in Hnot. cbn [assign_entries]. unfold bind.
    assert (Hk : k <> "__proto__") by (intros ->; tauto).
    destruct (put_total_on o k v Hok Hproto Hk) as (H & Hput).
    pose proof (put_last h (wf_objects _ Hwf) o k v Hok) as Hlast.
    rewrite Hput in *.
    destruct Hlast as (o1 & -> & Hok1 & _ & Hproto1).
    apply IH; [exact Hok1| |tauto].
    destruct (Hproto1 Hk) as [-> _]. exact Hproto.
Qed.

(** The merge and the assignment of [name] succeed on any chain that
    lets writes pass, and leave the object that [write_all] and
    [write_prop] describe. *)
Lemma merge_and_name_on tag kvs o :
  this_ok o -> proto o = Some Q -> ~ In "__proto__" (map fst kvs) ->
  exists inst,
    merge_and_name (length h) tag kvs (h ++ [o]) = Normal (length h) (h ++ [inst]) /\
    this_ok inst /\ proto inst = Some Q /\
    props inst = write_prop "name" (VStr tag) (write_all kvs (props o)).
Proof.
  intros Hok Hproto Hnot.
  pose proof (merge_and_name_last h Hwf tag kvs o Hok) as Hlast.
  unfold merge_and_name, bind in *.
  destruct (assign_total_on kvs o Hok Hproto Hnot) as (H & Ha).
  pose proof (assign_last h (wf_objects _ Hwf) kvs o Hok) as Hl.
  rewrite Ha in *. destruct Hl as (o1 & -> & Hok1 & _ & Hproto1).
  assert (Hp1 : proto o1 = Some Q)
    by (destruct (Hproto1 Hnot) as [-> _]; assumption).
  destruct (put_total_on o1 "name" (VStr tag) Hok1 Hp1) as (H' & Hput); [discriminate|].
  rewrite Hput in *.
  destruct Hlast as (_ & inst & -> & Hoki & _ & Hrest).
  destruct (Hrest Hnot) as [Hpi Hpr].
  exists inst. repeat split; try assumption; try apply Hoki. congruence.
Qed.

End AnyChain.

Section Hosts.

Lemma lookup_prop_app k (ps qs : list (string * prop)) :
  lookup_prop k (ps ++ qs)
  = match lookup_prop k ps with
    | Some p => Some p
    | None => lookup_prop k qs
    end.
Proof.
  induction ps as [|[k0 p0] ps IH]; simpl; [reflexivity|].
  destruct (String.eqb k k0); [reflexivity|exact IH].
Qed.

Lemma store_prop_absent k p (ps : list (string * prop)) :
  lookup_prop k ps = None -> store_prop k p ps = ps ++ [(k, p)].
Proof.
  induction ps as [|[k0 p0] ps IH]; simpl; [reflexivity|].
  destruct (String.eqb k k0); [discriminate|].
  intros H. rewrite IH by exact H. reflexivity.
Qed.

Lemma host_ok_cons k p rest :
  host_ok ((k, p) :: rest) = true ->
  (exists v c, p = Data v true false c) /\
  ~ In k ("message" :: "_tag" :: "name" :: "__proto__" :: map fst rest) /\
  host_ok rest = true.
Proof.
  simpl. destruct p as [v [|] [|] c|]; try discriminate.
  intros H. apply andb_true_iff in H as [Hk Hrest].
  split; [eauto|]. split; [|exact Hrest].
  intros Hin. apply negb_true_iff in Hk.
  assert (existsb (String.eqb k)
            ("message" :: "_tag" :: "name" :: "__proto__" :: map fst rest) = true) as Ht.
  { apply existsb_exists. exists k. split; [exact Hin|apply String.eqb_refl]. }
  cbn [existsb] in Ht. congruence.
Qed.

(** The host has no field under a name the constructor uses. *)
Lemma host_ok_reserved host k :
  host_ok host = true ->
  In k ["message"; "_tag"; "name"; "__proto__"] ->
  lookup_prop k host = None.
Proof.
  induction host as [|[k0 p0] host IH]; intros Hok Hk; [reflexivity|].
  destruct (host_ok_cons _ _ _ Hok) as (_ & Hnot & Hrest).
  simpl. destruct (String.eqb_spec k k0) as [->|_]; [|auto].
  exfalso. apply Hnot. simpl in *. tauto.
Qed.

Lemma host_ok_lookup host k p :
  host_ok host = true -> lookup_prop k host = Some p ->
  exists v c, p = Data v true false c.
Proof.
  induction host as [|[k0 p0] host IH]; intros Hok Hk; [discriminate|].
  destruct (host_ok_cons _ _ _ Hok) as (Hp & _ & Hrest).
  simpl in Hk. destruct (String.eqb k k0); [|auto].
  injection Hk as <-. exact Hp.
Qed.

Lemma host_ok_NoDup host : host_ok host = true -> List.NoDup (map fst host).
Proof.
  induction host as [|[k0 p0] host IH]; intros Hok; [constructor|].
  destruct (host_ok_cons _ _ _ Hok) as (_ & Hnot & Hrest).
  simpl. constructor; [|auto]. intros Hin. apply Hnot. simpl. tauto.
Qed.

Lemma host_ok_hidden host :
  host_ok host = true ->
  List.filter (fun kp => is_enumerable (snd kp)) host = [].
Proof.
  induction host as [|[k0 p0] host IH]; intros Hok; [reflexivity|].
  destruct (host_ok_cons _ _ _ Hok) as ((v & c & ->) & _ & Hrest).
  simpl. auto.
Qed.

(** Lookups in the properties of the object before the merge. *)
Lemma base_props_lookup host tag k :
  host_ok host = true ->
  lookup_prop k (base_props host tag)
  = if String.eqb k "message" then Some (Data (VStr tag) true false true)
    else match lookup_prop k host with
         | Some p => Some p
         | None => if String.eqb k "_tag" then Some (Data (VStr tag) true true true)
                   else None
         end.
Proof.
  intros Hok. unfold base_props. cbn [lookup_prop].
  destruct (String.eqb k "message"); [reflexivity|].
  rewrite lookup_prop_app. reflexivity.
Qed.

Lemma this_ok_base_on host P tag : host_ok host = true -> this_ok (base_on host P tag).
Proof.
  intros Hok. split.
  - reflexivity.
  - unfold own_keys, base_on, base_props; cbn [props map fst].
    rewrite map_app. cbn [map fst].
    constructor.
    + rewrite in_app_iff. intros [Hin|[H|[]]]; [|discriminate].
      apply lookup_prop_None in Hin; [exact Hin|].
      apply host_ok_reserved; [exact Hok|left; reflexivity].
    + pose proof (host_ok_NoDup _ Hok) as Hnd.
      assert (Hnot : ~ In "_tag" (map fst host)).
      { apply lookup_prop_None. apply host_ok_reserved; [exact Hok|].
        right; left; reflexivity. }
      induction (map fst host) as [|a l IH]; cbn [app].
      * constructor; [intros []|constructor].
      * inversion Hnd as [|? ? Ha Hl]; subst. constructor.
        -- rewrite in_app_iff. intros [H|[H|[]]]; [contradiction|].
           apply Hnot. left. congruence.
        -- apply IH; [exact Hl|]. intros H. apply Hnot. right. exact H.
  - intros k p. unfold get_own, base_on; cbn [props].
    rewrite (base_props_lookup _ _ _ Hok).
    destruct (String.eqb k "message"); [intros [= <-]; eauto|].
    destruct (lookup_prop k host) as [q|] eqn:Hq.
    + intros [= <-]. destruct (host_ok_lookup _ _ _ Hok Hq) as (v & c & ->). eauto.
    + destruct (String.eqb k "_tag"); [intros [= <-]; eauto|discriminate].
Qed.

(** [super(tag)], the field initializer and the reset of the prototype,
    on any host and for any [new.target] with a prototype object. *)
Lemma construct_on_unfold host h V c tag nt cn PC arg :
  host_ok host = true ->
  h !! V = Some c -> okind c = TaggedClass tag ->
  h !! nt = Some cn ->
  get_own cn "prototype" = Some (Data (VObj PC) false false false) ->
  construct_on host V nt arg h
  = let h1 := h ++ [base_on host PC tag] in
    match arg with
    | None => merge_and_name (length h) tag [] h1
    | Some p =>
        match h1 !! p with
        | Some s => merge_and_name (length h) tag (enumerable_entries (props s)) h1
        | None => Throw TypeError h1
        end
    end.
Proof.
  intros Hok HV Hkind HN HNp.
  unfold construct_on. rewrite HV. cbn [fmap option_fmap option_map].
  rewrite Hkind.
  unfold bind at 1. unfold Error_construct, bind at 1, Get at 1.
  rewrite (get_own_data _ _ _ _ _ _ _ _ HN HNp).
  unfold alloc.
  unfold bind at 1. unfold create_data_property.
  rewrite last_lookup.
  assert (Hnone : get_own
            (mkObj (Some PC) Plain (("message", Data (VStr tag) true false true) :: host))
            "_tag" = None).
  { unfold get_own. cbn [props lookup_prop String.eqb Ascii.eqb Bool.eqb].
    apply host_ok_reserved; [exact Hok|right; left; reflexivity]. }
  rewrite Hnone, last_insert.
  assert (Hbase : set_own
            (mkObj (Some PC) Plain (("message", Data (VStr tag) true false true) :: host))
            "_tag" (Data (VStr tag) true true true) = base_on host PC tag).
  { unfold set_own, base_on, base_props. cbn [props proto okind].
    f_equal. rewrite store_prop_absent by exact Hnone. reflexivity. }
  rewrite Hbase.
  unfold bind at 1. unfold Get at 1.
  rewrite (get_own_data _ _ _ _ _ _ _ _
             (old_lookup _ [base_on host PC tag] _ _ HN) HNp).
  unfold bind at 1. unfold Object_setPrototypeOf, ordinary_set_prototype_of.
  rewrite last_lookup. cbn [proto base_on same_proto].
  rewrite Nat.eqb_refl.
  destruct arg as [p|]; cbn zeta.
  - unfold bind at 1. unfold Object_assign.
    destruct ((h ++ [base_on host PC tag]) !! p) as [s|]; reflexivity.
  - reflexivity.
Qed.

(** Without an own enumerable [__proto__] in the argument, and on a chain
    that lets writes pass, the constructor returns the object the writes
    describe. *)
Lemma construct_on_result host h V c tag nt cn PC arg :
  wf h -> host_ok host = true ->
  h !! V = Some c -> okind c = TaggedClass tag ->
  h !! nt = Some cn ->
  get_own cn "prototype" = Some (Data (VObj PC) false false false) ->
  (forall o k fuel, this_ok o -> proto o = Some PC -> k <> "__proto__" ->
                    passes (find_prop fuel (h ++ [o]) (length h) k)) ->
  props_in h arg -> carries_proto_key h arg = false ->
  exists inst,
    construct_on host V nt arg h = Normal (length h) (h ++ [inst]) /\
    this_ok inst /\ proto inst = Some PC /\
    props inst = write_prop "name" (VStr tag)
                   (write_all (entries_of h arg) (base_props host tag)).
Proof.
  intros Hwf Hok HV Hkind HN HNp Hpass Hin Hno.
  rewrite (construct_on_unfold _ _ _ _ _ _ _ _ _ Hok HV Hkind HN HNp). cbn zeta.
  pose proof (this_ok_base_on host PC tag Hok) as Hbase.
  apply carries_proto_key_false in Hno.
  destruct arg as [p|].
  - destruct Hin as (po & Hpo). rewrite (old_lookup _ _ _ _ Hpo).
    unfold entries_of in *. rewrite Hpo in *.
    exact (merge_and_name_on h PC Hwf Hpass tag (enumerable_entries (props po))
             (base_on host PC tag) Hbase eq_refl Hno).
  - exact (merge_and_name_on h PC Hwf Hpass tag [] (base_on host PC tag)
             Hbase eq_refl Hno).
Qed.

(** Any instance [new] returns on a host, whatever the argument. *)
Lemma new_on_normal host h V tag arg o h' :
  wf h -> host_ok host = true -> variant h V tag -> props_in h arg ->
  new_on host V arg h = Normal o h' ->
  exists inst,
    o = length h /\ h' = h ++ [inst] /\ this_ok inst /\
    forall k, k <> "__proto__" ->
      get_own inst k
      = lookup_prop k (write_prop "name" (VStr tag)
                         (write_all (entries_of h arg) (base_props host tag))).
Proof.
  intros Hwf Hok Hv Hin Hnew.
  destruct (variant_class _ _ _ Hwf Hv)
    as (c & P & op & HV & Hk & Hpr & _).
  unfold new_on in Hnew.
  rewrite (construct_on_unfold _ _ _ _ _ _ _ _ _ Hok HV Hk HV Hpr) in Hnew.
  cbn zeta in Hnew.
  pose proof (this_ok_base_on host P tag Hok) as Hbase.
  assert (Hgen : forall kvs, kvs = entries_of h arg ->
            merge_and_name (length h) tag kvs (h ++ [base_on host P tag]) = Normal o h' ->
            exists inst,
              o = length h /\ h' = h ++ [inst] /\ this_ok inst /\
              forall k, k <> "__proto__" ->
                get_own inst k
                = lookup_prop k (write_prop "name" (VStr tag)
                                   (write_all (entries_of h arg) (base_props host tag)))).
  { intros kvs -> Hm.
    pose proof (merge_and_name_last h Hwf tag (entries_of h arg) _ Hbase) as Hl.
    rewrite Hm in Hl. destruct Hl as (-> & inst & -> & Hoki & Hlook & _).
    exists inst. auto. }
  destruct arg as [p|].
  - destruct Hin as (po & Hpo). rewrite (old_lookup _ _ _ _ Hpo) in Hnew.
    apply (Hgen (enumerable_entries (props po))); [|exact Hnew].
    unfold entries_of. rewrite Hpo. reflexivity.
  - apply (Hgen []); [reflexivity|exact Hnew].
Qed.

(** [new V(props)] on a host, without an own enumerable [__proto__]. *)
Lemma new_on_instance host h V tag arg :
  wf h -> host_ok host = true -> variant h V tag -> props_in h arg ->
  carries_proto_key h arg = false ->
  exists inst P op,
    new_on host V arg h = Normal (length h) (h ++ [inst]) /\
    wf (h ++ [inst]) /\
    (h ++ [inst]) !! length h = Some inst /\
    props inst = write_prop "name" (VStr tag)
                   (write_all (entries_of h arg) (base_props host tag)) /\
    proto inst = Some P /\
    prototype_of (h ++ [inst]) V = Some P /\
    (h ++ [inst]) !! P = Some op /\ proto op = Some ErrorPrototype.
Proof.
  intros Hwf Hok Hv Hin Hno.
  destruct (variant_class _ _ _ Hwf Hv)
    as (c & P & op & HV & Hk & Hpr & HPo & _ & HP & Hop & Hset & _).
  destruct (construct_on_result host h V c tag V c P arg Hwf Hok HV Hk HV Hpr
              (fun o k fuel => chain_passes h P op Hwf HP Hop Hset o k fuel) Hin Hno)
    as (inst & Hnew & Hoki & Hproto & Hprops).
  exists inst, P, op. split; [exact Hnew|].
  split; [apply wf_plain; [exact Hwf|apply this_ok_obj_ok, Hoki|apply Hoki]|].
  split; [apply last_lookup|]. split; [exact Hprops|]. split; [exact Hproto|].
  split; [apply prototype_of_extend, HPo|].
  split; [apply old_lookup, HP|exact Hop].
Qed.

End Hosts.

(** * The claims *)

(** What [new V()] builds from a class with tag [tag]. *)
Lemma fresh_instance h V tag trace :
  wf h -> variant h V tag ->
  exists o h',
    new V None trace h = Normal o h' /\
    get h' o "_tag" = VStr tag /\
    get h' o "name" = VStr tag /\
    get h' o "message" = VStr tag /\
    instance_of h' (VObj o) ErrorCtor = Some true /\
    keys_of h' o = ["message"; "stack"; "_tag"; "name"] /\
    enumerable_keys_of h' o = ["_tag"; "name"].
Proof.
  intros Hwf Hv.
  destruct (new_instance h V tag None trace Hwf Hv I eq_refl)
    as (inst & P & op & Hnew & Hwf3 & Hl & Hprops & Hproto & _ & HP & Hop).
  exists (length h), (h ++ [inst]). split; [exact Hnew|].
  assert (Hget : forall k v w e c,
            lookup_prop k (instance_props tag trace []) = Some (Data v w e c) ->
            get (h ++ [inst]) (length h) k = v).
  { intros k v w e c Hk. eapply own_value_last.
    unfold get_own. rewrite Hprops. exact Hk. }
  repeat split.
  - eapply Hget. reflexivity.
  - eapply Hget. reflexivity.
  - eapply Hget. reflexivity.
  - eapply instance_of_Error; eassumption.
  - unfold keys_of, own_keys. rewrite Hl, Hprops. reflexivity.
  - unfold enumerable_keys_of, own_enumerable_keys. rewrite Hl, Hprops. reflexivity.
Qed.

(** C1. For every tag [T] (the empty one included), [new V()] on the class
    [V] that [TaggedError(T)] returned, at any later point of the program,
    yields an instance whose [_tag], [name] and [message] all equal [T]
    and which is an instance of [Error]. *)
Theorem fresh_instance_carries_tag (h h1 h2 : heap) (tag trace : string) (V : loc) :
  wf h -> TaggedError tag h = Normal V h1 -> steps h1 h2 ->
  exists o h3,
    new V None trace h2 = Normal o h3 /\
    get h3 o "_tag" = VStr tag /\
    get h3 o "name" = VStr tag /\
    get h3 o "message" = VStr tag /\
    instance_of h3 (VObj o) ErrorCtor = Some true.
Proof.
  intros Hwf Hf Hsteps.
  destruct (factory_later _ _ _ _ _ Hwf Hf Hsteps) as [Hwf2 Hv].
  destruct (fresh_instance h2 V tag trace Hwf2 Hv)
    as (o & h3 & Hnew & Ht & Hn & Hm & He & _).
  exists o, h3. auto.
Qed.

Lemma fresh_instance_carries_tag_witness :
  exists o h3,
    new 5 None "at main" http_session = Normal o h3 /\
    get h3 o "_tag" = VStr "HttpError" /\
    get h3 o "name" = VStr "HttpError" /\
    get h3 o "message" = VStr "HttpError" /\
    instance_of h3 (VObj o) ErrorCtor = Some true.
Proof.
  apply (fresh_instance_carries_tag initial_heap
           (run (MakeVariant "HttpError") initial_heap) http_session
           "HttpError" "at main" 5).
  - exact wf_initial.
  - reflexivity.
  - apply (steps_cons (Literal [("statusCode", VNum 404); ("url", VStr "https://x")])),
      steps_refl.
Defined.

(** The scenario of the README: [new HttpError({statusCode: 404, url})]. *)
Example http_error_scenario :
  exists e h',
    new 5 (Some 6) "at main" http_session = Normal e h' /\
    get h' e "_tag" = VStr "HttpError" /\
    get h' e "statusCode" = VNum 404 /\
    get h' e "url" = VStr "https://x" /\
    get h' e "name" = VStr "HttpError" /\
    get h' e "message" = VStr "HttpError" /\
    get h' e "stack" = VStr "at main" /\
    enumerable_keys_of h' e = ["_tag"; "statusCode"; "url"; "name"] /\
    instance_of h' (VObj e) 5 = Some true /\
    instance_of h' (VObj e) ErrorCtor = Some true.
Proof. eexists _, _. repeat split; reflexivity. Qed.

(** The first test of the suite: [class MyCustomError extends
    TaggedError("MyCustomError") {}] and [new MyCustomError()]. *)
Example test_create_a_new_error_class :
  exists C e h,
    (let* V := TaggedError "MyCustomError" in
     let* C := class_extends V "MyCustomError" in
     let* e := construct V C None "at test" in
     ret (C, e)) initial_heap = Normal (C, e) h /\
    instance_of h (VObj e) C = Some true /\
    instance_of h (VObj e) ErrorCtor = Some true /\
    get h e "name" = VStr "MyCustomError" /\
    get h e "_tag" = VStr "MyCustomError".
Proof. eexists _, _, _. repeat split; reflexivity. Qed.

(** C2, amended. For every tag [T] and every property map, on every
    instance that [new] returns each entry of the map other than [name] and
    [__proto__] is an own field with the same value, [name] is an own field
    equal to [T], and [_tag], [name], [message] and [stack] are all own
    fields. (The instance exists whenever the map has no own enumerable
    [__proto__].) *)
Theorem merge_keeps_entries_but_name (h h1 h2 : heap) (tag trace : string) (V p : loc) :
  wf h -> TaggedError tag h = Normal V h1 -> steps h1 h2 ->
  props_in h2 (Some p) ->
  (carries_proto_key h2 (Some p) = false ->
   exists o h3, new V (Some p) trace h2 = Normal o h3) /\
  forall o h3, new V (Some p) trace h2 = Normal o h3 ->
    (forall k v, In (k, v) (entries_of h2 (Some p)) ->
                 k <> "name" -> k <> "__proto__" -> own_value h3 o k = Some v) /\
    own_value h3 o "name" = Some (VStr tag) /\
    (forall k, In k reserved -> is_Some (own_value h3 o k)).
Proof.
  intros Hwf Hf Hsteps Hin.
  destruct (factory_later _ _ _ _ _ Hwf Hf Hsteps) as [Hwf2 Hv].
  split.
  - intros Hno.
    destruct (new_total h2 V tag (Some p) trace Hwf2 Hv Hin Hno) as (H & Hnew).
    eauto.
  - intros o h3 Hnew.
    destruct (new_normal _ _ _ _ _ _ _ Hwf2 Hv Hin Hnew) as (inst & -> & -> & Hok & Hlook).
    split; [|split].
    + intros k v Hkv Hk Hk'.
      destruct (instance_props_entry tag trace _ k v (entries_NoDup h2 (Some p) Hwf2) Hkv Hk)
        as (e & c & Hentry).
      eapply own_value_last. rewrite Hlook by exact Hk'. exact Hentry.
    + destruct (instance_props_name tag trace (entries_of h2 (Some p))) as (e & c & Hname).
      eapply own_value_last. rewrite Hlook by discriminate. exact Hname.
    + intros k Hk.
      destruct (instance_props_has tag trace (entries_of h2 (Some p)) k Hk)
        as (v & e & c & Hhas).
      exists v. eapply own_value_last. rewrite Hlook; [exact Hhas|].
      destruct Hk as [<-|[<-|[<-|[<-|[]]]]]; discriminate.
Qed.

Lemma merge_keeps_entries_but_name_witness :
  (carries_proto_key http_session (Some 6) = false ->
   exists o h3, new 5 (Some 6) "at main" http_session = Normal o h3) /\
  forall o h3, new 5 (Some 6) "at main" http_session = Normal o h3 ->
    (forall k v, In (k, v) (entries_of http_session (Some 6)) ->
                 k <> "name" -> k <> "__proto__" -> own_value h3 o k = Some v) /\
    own_value h3 o "name" = Some (VStr "HttpError") /\
    (forall k, In k reserved -> is_Some (own_value h3 o k)).
Proof.
  apply (merge_keeps_entries_but_name initial_heap
           (run (MakeVariant "HttpError") initial_heap) http_session
           "HttpError" "at main" 5 6).
  - exact wf_initial.
  - reflexivity.
  - apply (steps_cons (Literal [("statusCode", VNum 404); ("url", VStr "https://x")])),
      steps_refl.
  - eexists. reflexivity.
Defined.

(** C2 as stated fails: with the property map [{name: "Other"}] the
    instance's [name] is the tag, not the supplied value. *)
Lemma merge_overrides_supplied_name :
  ~ merge_keeps_every_entry renaming_session 5 6 "at main".
Proof.
  intros (o & h' & Hnew & Hall).
  vm_compute in Hnew. injection Hnew as <- <-.
  specialize (Hall "name" (VStr "Other")).
  assert (Hentry : In ("name", VStr "Other") (entries_of renaming_session (Some 6)))
    by (left; reflexivity).
  specialize (Hall Hentry). vm_compute in Hall. discriminate.
Qed.

(** The other exception of C2: an own enumerable [__proto__] of the
    property map is not copied, it replaces the prototype of the instance. *)
Lemma proto_key_is_not_copied :
  exists o h',
    new 5 (Some 8) "at main" twin_session = Normal o h' /\
    In ("__proto__", VObj 6) (entries_of twin_session (Some 8)) /\
    own_value h' o "__proto__" = None /\
    get h' o "__proto__" = VObj 6.
Proof. eexists _, _. repeat split; [left|..]; reflexivity. Qed.

(** Two factory calls, one after the other: the classes differ, and an
    instance of either, built without an own enumerable [__proto__],
    belongs to its own class and to [Error] but not to the other class. *)
Lemma two_classes
    (h hA hA' hB h' : heap) (tagA tagB trace : string) (A B : loc) (arg : option loc) :
  wf h -> TaggedError tagA h = Normal A hA -> steps hA hA' ->
  TaggedError tagB hA' = Normal B hB -> steps hB h' ->
  props_in h' arg -> carries_proto_key h' arg = false ->
  A <> B /\
  (exists o h'',
     new A arg trace h' = Normal o h'' /\
     instance_of h'' (VObj o) A = Some true /\
     instance_of h'' (VObj o) ErrorCtor = Some true /\
     instance_of h'' (VObj o) B = Some false) /\
  (exists o h'',
     new B arg trace h' = Normal o h'' /\
     instance_of h'' (VObj o) B = Some true /\
     instance_of h'' (VObj o) ErrorCtor = Some true /\
     instance_of h'' (VObj o) A = Some false).
Proof.
  intros Hwf HfA HstA HfB HstB Hin Hno.
  destruct (factory_later _ _ _ _ _ Hwf HfA HstA) as [HwfA HvA].
  destruct (factory_later _ _ _ _ _ HwfA HfB HstB) as [Hwf' HvB].
  assert (HvA' : variant h' A tagA).
  { eapply variant_steps; [| |exact HvA]; [exact HwfA|].
    apply (steps_cons (MakeVariant tagB)). unfold run. rewrite HfB. exact HstB. }
  assert (Hne : A <> B).
  { destruct (TaggedError_variant tagB hA') as (B' & hB' & HfB' & _ & Hlt & _).
    rewrite HfB in HfB'. injection HfB' as <- <-.
    unfold variant in HvA. destruct (hA' !! A) as [c|] eqn:HA; [|discriminate].
    apply lookup_lt_Some in HA. lia. }
  split; [exact Hne|]. split.
  - destruct (instance_exclusive h' A tagA arg trace Hwf' HvA' Hin Hno)
      as (o & h'' & Hnew & HA & HE & Hother).
    exists o, h''. repeat split; try assumption.
    apply (Hother B tagB HvB). auto.
  - destruct (instance_exclusive h' B tagB arg trace Hwf' HvB Hin Hno)
      as (o & h'' & Hnew & HB & HE & Hother).
    exists o, h''. repeat split; try assumption.
    apply (Hother A tagA HvA'). auto.
Qed.

(** With an own enumerable [__proto__] in the property map, construction
    can fail: here the new prototype has a read-only [name], and the
    assignment [this.name = tag] throws. *)
Lemma proto_key_can_stop_construction :
  exists h', new 5 (Some 6) "at main" self_proto_session = Throw TypeError h'.
Proof. eexists. reflexivity. Qed.




(** C4, amended. Two calls of the factory with the same tag return two
    different classes; an instance of either, built without properties or
    with a property map that has no own enumerable [__proto__], is an
    instance of the class it was built from and not of the other. *)
Theorem same_tag_classes_are_distinct
    (h h1 h1' h2 h' : heap) (tag trace : string) (V1 V2 : loc) (arg : option loc) :
  wf h -> TaggedError tag h = Normal V1 h1 -> steps h1 h1' ->
  TaggedError tag h1' = Normal V2 h2 -> steps h2 h' ->
  props_in h' arg -> carries_proto_key h' arg = false ->
  V1 <> V2 /\
  (exists o h'',
     new V1 arg trace h' = Normal o h'' /\
     instance_of h'' (VObj o) V1 = Some true /\
     instance_of h'' (VObj o) V2 = Some false) /\
  (exists o h'',
     new V2 arg trace h' = Normal o h'' /\
     instance_of h'' (VObj o) V2 = Some true /\
     instance_of h'' (VObj o) V1 = Some false).
Proof.
  intros Hwf Hf1 Hst1 Hf2 Hst2 Hin Hno.
  destruct (two_classes h h1 h1' h2 h' tag tag trace V1 V2 arg
              Hwf Hf1 Hst1 Hf2 Hst2 Hin Hno)
    as (Hne & (o1 & g1 & Hn1 & Ho1 & _ & Hx1) & (o2 & g2 & Hn2 & Ho2 & _ & Hx2)).
  split; [exact Hne|]. split; eauto 6.
Qed.

Lemma same_tag_classes_are_distinct_witness :
  5 <> 7 /\
  (exists o h'',
     new 5 None "at main" twin_session = Normal o h'' /\
     instance_of h'' (VObj o) 5 = Some true /\
     instance_of h'' (VObj o) 7 = Some false) /\
  (exists o h'',
     new 7 None "at main" twin_session = Normal o h'' /\
     instance_of h'' (VObj o) 7 = Some true /\
     instance_of h'' (VObj o) 5 = Some false).
Proof.
  apply (same_tag_classes_are_distinct initial_heap
           (run (MakeVariant "X") initial_heap)
           (run (MakeVariant "X") initial_heap)
           (run (MakeVariant "X") (run (MakeVariant "X") initial_heap))
           twin_session
           "X" "at main" 5 7 None).
  - exact wf_initial.
  - reflexivity.
  - apply steps_refl.
  - reflexivity.
  - apply (steps_cons (Literal [("__proto__", VObj 6)])), steps_refl.
  - exact I.
  - reflexivity.
Defined.

(** C4 as stated fails: built from the first class of [twin_session] with
    the map [{["__proto__"]: V2.prototype}], the instance is an instance of
    the second class. *)
Lemma proto_key_joins_the_twin :
  ~ never_instance_of_other twin_session 5 7 (Some 8) "at main".
Proof.
  intros Hall.
  pose proof (Hall 9 (heap_of (new 5 (Some 8) "at main" twin_session)) eq_refl)
    as Hother.
  vm_compute in Hother. discriminate.
Qed.

(** C5, amended. For every tag [T] and every property map whose keys
    include a reserved name, on every instance that [new] returns a supplied
    [_tag], [message] or [stack] (the trace) has overwritten the default,
    but a supplied [name] has not: [name] is [T]. (The instance exists
    whenever the map has no own enumerable [__proto__].) *)
Theorem supplied_wins_except_name (h h1 h2 : heap) (tag trace : string) (V p : loc) :
  wf h -> TaggedError tag h = Normal V h1 -> steps h1 h2 ->
  props_in h2 (Some p) ->
  (carries_proto_key h2 (Some p) = false ->
   exists o h3, new V (Some p) trace h2 = Normal o h3) /\
  forall o h3, new V (Some p) trace h2 = Normal o h3 ->
    (forall k v, In k ["_tag"; "message"; "stack"] ->
                 In (k, v) (entries_of h2 (Some p)) -> get h3 o k = v) /\
    get h3 o "name" = VStr tag.
Proof.
  intros Hwf Hf Hsteps Hin.
  destruct (factory_later _ _ _ _ _ Hwf Hf Hsteps) as [Hwf2 Hv].
  split.
  - intros Hno.
    destruct (new_total h2 V tag (Some p) trace Hwf2 Hv Hin Hno) as (H & Hnew).
    eauto.
  - intros o h3 Hnew.
    destruct (new_normal _ _ _ _ _ _ _ Hwf2 Hv Hin Hnew) as (inst & -> & -> & Hok & Hlook).
    split.
    + intros k v Hk Hkv.
      assert (Hne : k <> "name" /\ k <> "__proto__")
        by (destruct Hk as [<-|[<-|[<-|[]]]]; split; discriminate).
      destruct (instance_props_entry tag trace _ k v
                  (entries_NoDup h2 (Some p) Hwf2) Hkv (proj1 Hne))
        as (e & c & Hentry).
      eapply own_value_last. rewrite Hlook by exact (proj2 Hne). exact Hentry.
    + destruct (instance_props_name tag trace (entries_of h2 (Some p))) as (e & c & Hname).
      eapply own_value_last. rewrite Hlook by discriminate. exact Hname.
Qed.

Lemma supplied_wins_except_name_witness :
  (carries_proto_key retagging_session (Some 6) = false ->
   exists o h3, new 5 (Some 6) "at main" retagging_session = Normal o h3) /\
  forall o h3, new 5 (Some 6) "at main" retagging_session = Normal o h3 ->
    (forall k v, In k ["_tag"; "message"; "stack"] ->
                 In (k, v) (entries_of retagging_session (Some 6)) -> get h3 o k = v) /\
    get h3 o "name" = VStr "HttpError".
Proof.
  apply (supplied_wins_except_name initial_heap
           (run (MakeVariant "HttpError") initial_heap) retagging_session
           "HttpError" "at main" 5 6).
  - exact wf_initial.
  - reflexivity.
  - apply (steps_cons (Literal [("_tag", VStr "Other"); ("message", VStr "not found")])),
      steps_refl.
  - eexists. reflexivity.
Defined.

(** C5 as stated fails for [name]: with [{name: "Other"}] the supplied
    value does not win. *)
Lemma supplied_name_loses :
  ~ supplied_reserved_wins renaming_session 5 6 "at main".
Proof.
  intros (o & h' & Hnew & Hall).
  vm_compute in Hnew. injection Hnew as <- <-.
  assert (Hres : In "name" reserved) by (right; left; reflexivity).
  assert (Hentry : In ("name", VStr "Other") (entries_of renaming_session (Some 6)))
    by (left; reflexivity).
  specialize (Hall "name" (VStr "Other") Hres Hentry).
  vm_compute in Hall. discriminate.
Qed.

(** C6, amended. The discriminant is defined before the properties are
    copied and the display name is assigned after: on every instance that
    [new] returns, [name] equals the tag even when the property map supplies
    [name], while [_tag] is the supplied value when the map supplies [_tag]
    and the tag otherwise. (The instance exists whenever the map has no own
    enumerable [__proto__].) *)
Theorem tag_before_merge_name_after (h h1 h2 : heap) (tag trace : string) (V p : loc) :
  wf h -> TaggedError tag h = Normal V h1 -> steps h1 h2 ->
  props_in h2 (Some p) ->
  (carries_proto_key h2 (Some p) = false ->
   exists o h3, new V (Some p) trace h2 = Normal o h3) /\
  forall o h3, new V (Some p) trace h2 = Normal o h3 ->
    get h3 o "name" = VStr tag /\
    (forall v, In ("_tag", v) (entries_of h2 (Some p)) -> get h3 o "_tag" = v) /\
    (~ In "_tag" (map fst (entries_of h2 (Some p))) -> get h3 o "_tag" = VStr tag).
Proof.
  intros Hwf Hf Hsteps Hin.
  destruct (factory_later _ _ _ _ _ Hwf Hf Hsteps) as [Hwf2 Hv].
  split.
  - intros Hno.
    destruct (new_total h2 V tag (Some p) trace Hwf2 Hv Hin Hno) as (H & Hnew).
    eauto.
  - intros o h3 Hnew.
    destruct (new_normal _ _ _ _ _ _ _ Hwf2 Hv Hin Hnew) as (inst & -> & -> & Hok & Hlook).
    split; [|split].
    + destruct (instance_props_name tag trace (entries_of h2 (Some p))) as (e & c & Hname).
      eapply own_value_last. rewrite Hlook by discriminate. exact Hname.
    + intros v Hkv.
      destruct (instance_props_entry tag trace _ "_tag" v
                  (entries_NoDup h2 (Some p) Hwf2) Hkv) as (e & c & Hentry);
        [discriminate|].
      eapply own_value_last. rewrite Hlook by discriminate. exact Hentry.
    + intros Hnot.
      eapply own_value_last. rewrite Hlook by discriminate.
      rewrite instance_props_default by (exact Hnot || discriminate).
      reflexivity.
Qed.

Lemma tag_before_merge_name_after_witness :
  (carries_proto_key retagging_session (Some 6) = false ->
   exists o h3, new 5 (Some 6) "at main" retagging_session = Normal o h3) /\
  forall o h3, new 5 (Some 6) "at main" retagging_session = Normal o h3 ->
    get h3 o "name" = VStr "HttpError" /\
    (forall v, In ("_tag", v) (entries_of retagging_session (Some 6)) ->
               get h3 o "_tag" = v) /\
    (~ In "_tag" (map fst (entries_of retagging_session (Some 6))) ->
     get h3 o "_tag" = VStr "HttpError").
Proof.
  apply (tag_before_merge_name_after initial_heap
           (run (MakeVariant "HttpError") initial_heap) retagging_session
           "HttpError" "at main" 5 6).
  - exact wf_initial.
  - reflexivity.
  - apply (steps_cons (Literal [("_tag", VStr "Other"); ("message", VStr "not found")])),
      steps_refl.
  - eexists. reflexivity.
Defined.

(** C6 as stated fails for [_tag]: with [{_tag: "Other", ...}] the
    instance's [_tag] is ["Other"], not the tag. *)
Lemma supplied_tag_survives :
  ~ tag_and_name_set_last retagging_session 5 "HttpError" 6 "at main".
Proof.
  intros (o & h' & Hnew & Htag & _).
  vm_compute in Hnew. injection Hnew as <- <-.
  vm_compute in Htag. discriminate.
Qed.

(** C7, amended. The factory checks nothing: for every tag, the empty one
    included, it returns a class at once and never throws; the class made
    for the empty tag constructs instances whose [_tag], [name] and
    [message] are the empty string. *)
Theorem factory_accepts_any_tag (h : heap) (trace : string) :
  wf h ->
  (forall tag, exists V h1, TaggedError tag h = Normal V h1 /\ variant h1 V tag) /\
  exists V h1 o h2,
    TaggedError "" h = Normal V h1 /\
    new V None trace h1 = Normal o h2 /\
    get h2 o "_tag" = VStr "" /\
    get h2 o "name" = VStr "" /\
    get h2 o "message" = VStr "".
Proof.
  intros Hwf. split.
  - intros tag. destruct (TaggedError_variant tag h) as (V & h1 & Hf & Hv & _).
    eauto.
  - destruct (TaggedError_variant "" h) as (V & h1 & Hf & Hv & _).
    destruct (factory_later h "" V h1 h1 Hwf Hf (steps_refl _)) as [Hwf1 _].
    destruct (fresh_instance h1 V "" trace Hwf1 Hv)
      as (o & h2 & Hnew & Ht & Hn & Hm & _).
    exists V, h1, o, h2. auto.
Qed.

Lemma factory_accepts_any_tag_witness :
  (forall tag, exists V h1,
      TaggedError tag initial_heap = Normal V h1 /\ variant h1 V tag) /\
  exists V h1 o h2,
    TaggedError "" initial_heap = Normal V h1 /\
    new V None "at main" h1 = Normal o h2 /\
    get h2 o "_tag" = VStr "" /\
    get h2 o "name" = VStr "" /\
    get h2 o "message" = VStr "".
Proof. apply (factory_accepts_any_tag initial_heap "at main"). exact wf_initial. Defined.

(** C7 as stated fails: the factory does not throw on the empty tag. *)
Lemma empty_tag_is_accepted : ~ rejects_empty_tag initial_heap.
Proof. intros (e & h' & Hthrow). discriminate. Qed.

(** C8, amended. For every tag and on every host whose fields are
    non-enumerable data properties, [new V()] does not fail; the own
    enumerable fields of the instance are exactly [_tag] and
    [name]; its own fields are [_tag], [name], [message] and the fields the
    host's error mechanism contributes (the trace among them), with no
    stray field; and [message] and the host's fields are not enumerable. *)
Theorem fresh_instance_own_fields (host : list (string * prop)) (h h1 h2 : heap)
    (tag : string) (V : loc) :
  wf h -> TaggedError tag h = Normal V h1 -> steps h1 h2 ->
  host_ok host = true ->
  exists o h3,
    new_on host V None h2 = Normal o h3 /\
    enumerable_keys_of h3 o = ["_tag"; "name"] /\
    (forall k, In k (keys_of h3 o) <->
               In k ["_tag"; "name"; "message"] \/ In k (map fst host)) /\
    (forall k, In k ("message" :: map fst host) ->
               exists p, own_prop h3 o k = Some p /\ is_enumerable p = false).
Proof.
  intros Hwf Hf Hsteps Hok.
  destruct (factory_later _ _ _ _ _ Hwf Hf Hsteps) as [Hwf2 Hv].
  destruct (new_on_instance host h2 V tag None Hwf2 Hok Hv I eq_refl)
    as (inst & P & op & Hnew & _ & Hl & Hprops & _).
  assert (Hname : lookup_prop "name" (base_props host tag) = None).
  { rewrite (base_props_lookup _ _ _ Hok).
    rewrite (host_ok_reserved host "name" Hok) by (right; right; left; reflexivity).
    reflexivity. }
  assert (Hall : props inst
                 = ("message", Data (VStr tag) true false true)
                     :: host ++ [("_tag", Data (VStr tag) true true true);
                                 ("name", Data (VStr tag) true true true)]).
  { rewrite Hprops. cbn [entries_of write_all fold_left].
    unfold write_prop. rewrite Hname, store_prop_absent by exact Hname.
    unfold base_props. cbn [written app]. rewrite <- app_assoc. reflexivity. }
  exists (length h2), (h2 ++ [inst]). split; [exact Hnew|].
  split; [|split].
  - unfold enumerable_keys_of, own_enumerable_keys. rewrite Hl, Hall.
    cbn [List.filter snd is_enumerable]. rewrite List.filter_app.
    rewrite (host_ok_hidden _ Hok). reflexivity.
  - intros k. unfold keys_of, own_keys. rewrite Hl, Hall.
    cbn [map fst]. rewrite map_app. cbn [map fst In].
    rewrite in_app_iff. cbn [In]. intuition.
  - intros k Hk. unfold own_prop, get_own. rewrite Hl, Hall.
    cbn [lookup_prop]. destruct (String.eqb_spec k "message") as [->|Hne].
    + eexists. split; reflexivity.
    + destruct Hk as [Hk|Hk]; [congruence|].
      rewrite lookup_prop_app.
      destruct (lookup_prop k host) as [p|] eqn:Hp.
      * destruct (host_ok_lookup _ _ _ Hok Hp) as (v & c & ->).
        eexists. split; reflexivity.
      * apply lookup_prop_None in Hp. contradiction.
Qed.

Lemma fresh_instance_own_fields_witness :
  exists o h3,
    new_on positioned_host 5 None http_session = Normal o h3 /\
    enumerable_keys_of h3 o = ["_tag"; "name"] /\
    (forall k, In k (keys_of h3 o) <->
               In k ["_tag"; "name"; "message"] \/ In k (map fst positioned_host)) /\
    (forall k, In k ("message" :: map fst positioned_host) ->
               exists p, own_prop h3 o k = Some p /\ is_enumerable p = false).
Proof.
  apply (fresh_instance_own_fields positioned_host initial_heap
           (run (MakeVariant "HttpError") initial_heap) http_session
           "HttpError" 5).
  - exact wf_initial.
  - reflexivity.
  - apply (steps_cons (Literal [("statusCode", VNum 404); ("url", VStr "https://x")])),
      steps_refl.
  - reflexivity.
Defined.

(** C8 as stated fails: [message] is one of the four defaults and an own
    field of the instance, but it is not enumerable, whatever the host
    adds. *)
Lemma message_is_not_enumerable :
  ~ enumerable_fields_are_defaults positioned_host http_session 5.
Proof.
  intros (o & h' & Hnew & Hdefaults & _).
  vm_compute in Hnew. injection Hnew as <- <-.
  assert (Hmsg : In "message" reserved) by (right; right; left; reflexivity).
  apply Hdefaults in Hmsg. vm_compute in Hmsg.
  destruct Hmsg as [H|[H|[]]]; discriminate.
Qed.

(** C9. [_tag] is a writable own property of every instance: on any
    instance that [new] returns, whatever the properties it was built
    with, an assignment to [_tag] succeeds and the new value is what a
    read finds. (The instance exists whenever the property map has no own
    enumerable [__proto__].) *)
Theorem tag_is_writable (h h1 h2 : heap) (tag trace : string) (V : loc) (arg : option loc) :
  wf h -> TaggedError tag h = Normal V h1 -> steps h1 h2 -> props_in h2 arg ->
  (carries_proto_key h2 arg = false ->
   exists o h3, new V arg trace h2 = Normal o h3) /\
  forall o h3, new V arg trace h2 = Normal o h3 ->
    (exists v0 e c, own_prop h3 o "_tag" = Some (Data v0 true e c)) /\
    forall v, exists h4, put o "_tag" v h3 = Normal tt h4 /\ get h4 o "_tag" = v.
Proof.
  intros Hwf Hf Hsteps Hin.
  destruct (factory_later _ _ _ _ _ Hwf Hf Hsteps) as [Hwf2 Hv].
  split.
  - intros Hno. destruct (new_total h2 V tag arg trace Hwf2 Hv Hin Hno) as (H & Hnew).
    eauto.
  - intros o h3 Hnew.
    destruct (new_normal _ _ _ _ _ _ _ Hwf2 Hv Hin Hnew) as (inst & -> & -> & Hok & Hlook).
    destruct (instance_props_has tag trace (entries_of h2 arg) "_tag")
      as (v0 & e & c & Hhas); [left; reflexivity|].
    assert (Hown : get_own inst "_tag" = Some (Data v0 true e c))
      by (rewrite Hlook by discriminate; exact Hhas).
    split.
    + exists v0, e, c. unfold own_prop. rewrite last_lookup. exact Hown.
    + intros v. unfold put. rewrite last_lookup.
      rewrite (find_prop_own _ _ _ _ _ (last_lookup h2 inst) Hown), Hown.
      eexists. split; [reflexivity|].
      rewrite last_insert. eapply own_value_last.
      unfold get_own, set_own; simpl. apply lookup_store_eq.
Qed.

Lemma tag_is_writable_witness :
  (carries_proto_key http_session (Some 6) = false ->
   exists o h3, new 5 (Some 6) "at main" http_session = Normal o h3) /\
  forall o h3, new 5 (Some 6) "at main" http_session = Normal o h3 ->
    (exists v0 e c, own_prop h3 o "_tag" = Some (Data v0 true e c)) /\
    forall v, exists h4, put o "_tag" v h3 = Normal tt h4 /\ get h4 o "_tag" = v.
Proof.
  apply (tag_is_writable initial_heap
           (run (MakeVariant "HttpError") initial_heap) http_session
           "HttpError" "at main" 5 (Some 6)).
  - exact wf_initial.
  - reflexivity.
  - apply (steps_cons (Literal [("statusCode", VNum 404); ("url", VStr "https://x")])),
      steps_refl.
  - eexists. reflexivity.
Defined.

(** C10. When the property map collides with reserved names the outcome
    differs per field: on every instance that [new] returns, a supplied
    [_tag] or [message] is the instance's [_tag] or [message], and [name]
    is the tag whatever the map supplies. (The instance exists whenever the
    property map has no own enumerable [__proto__].) *)
Theorem collision_outcome_per_field
    (h h1 h2 : heap) (tag trace : string) (V : loc) (arg : option loc) :
  wf h -> TaggedError tag h = Normal V h1 -> steps h1 h2 -> props_in h2 arg ->
  (carries_proto_key h2 arg = false ->
   exists o h3, new V arg trace h2 = Normal o h3) /\
  forall o h3, new V arg trace h2 = Normal o h3 ->
    get h3 o "name" = VStr tag /\
    (forall v, In ("_tag", v) (entries_of h2 arg) -> get h3 o "_tag" = v) /\
    (forall v, In ("message", v) (entries_of h2 arg) -> get h3 o "message" = v).
Proof.
  intros Hwf Hf Hsteps Hin.
  destruct (factory_later _ _ _ _ _ Hwf Hf Hsteps) as [Hwf2 Hv].
  split.
  - intros Hno. destruct (new_total h2 V tag arg trace Hwf2 Hv Hin Hno) as (H & Hnew).
    eauto.
  - intros o h3 Hnew.
    destruct (new_normal _ _ _ _ _ _ _ Hwf2 Hv Hin Hnew) as (inst & -> & -> & Hok & Hlook).
    pose proof (entries_NoDup h2 arg Hwf2) as Hnd.
    split; [|split].
    + destruct (instance_props_name tag trace (entries_of h2 arg)) as (e & c & Hname).
      eapply own_value_last. rewrite Hlook by discriminate. exact Hname.
    + intros v Hkv.
      destruct (instance_props_entry tag trace _ "_tag" v Hnd Hkv) as (e & c & Hk);
        [discriminate|].
      eapply own_value_last. rewrite Hlook by discriminate. exact Hk.
    + intros v Hkv.
      destruct (instance_props_entry tag trace _ "message" v Hnd Hkv) as (e & c & Hk);
        [discriminate|].
      eapply own_value_last. rewrite Hlook by discriminate. exact Hk.
Qed.

Lemma collision_outcome_per_field_witness :
  (carries_proto_key retagging_session (Some 6) = false ->
   exists o h3, new 5 (Some 6) "at main" retagging_session = Normal o h3) /\
  forall o h3, new 5 (Some 6) "at main" retagging_session = Normal o h3 ->
    get h3 o "name" = VStr "HttpError" /\
    (forall v, In ("_tag", v) (entries_of retagging_session (Some 6)) ->
               get h3 o "_tag" = v) /\
    (forall v, In ("message", v) (entries_of retagging_session (Some 6)) ->
               get h3 o "message" = v).
Proof.
  apply (collision_outcome_per_field initial_heap
           (run (MakeVariant "HttpError") initial_heap) retagging_session
           "HttpError" "at main" 5 (Some 6)).
  - exact wf_initial.
  - reflexivity.
  - apply (steps_cons (Literal [("_tag", VStr "Other"); ("message", VStr "not found")])),
      steps_refl.
  - eexists. reflexivity.
Defined.

(** * Further properties of the constructor *)

Section Attributes.

(** A write keeps the attributes of the property it overwrites. *)
Lemma write_all_attrs kvs : forall ps k v e c,
  lookup_prop k ps = Some (Data v true e c) ->
  exists v', lookup_prop k (write_all kvs ps) = Some (Data v' true e c).
Proof.
  induction kvs as [|[k0 v0] kvs IH]; intros ps k v e c Hk; simpl.
  - eauto.
  - destruct (String.eqb k k0) eqn:E.
    + apply String.eqb_eq in E; subst k0.
      apply (IH _ _ v0 e c). rewrite lookup_write_eq, Hk. reflexivity.
    + apply String.eqb_neq in E.
      apply (IH _ _ v e c). rewrite lookup_write_ne by exact E. exact Hk.
Qed.

(** A property the writes create is writable, enumerable, configurable. *)
Lemma write_all_created kvs : forall ps k,
  lookup_prop k ps = None ->
  lookup_prop k (write_all kvs ps) = None \/
  exists v, lookup_prop k (write_all kvs ps) = Some (Data v true true true).
Proof.
  induction kvs as [|[k0 v0] kvs IH]; intros ps k Hk; simpl.
  - left. exact Hk.
  - destruct (String.eqb k k0) eqn:E.
    + apply String.eqb_eq in E; subst k0. right.
      apply (write_all_attrs kvs _ k v0 true true).
      rewrite lookup_write_eq, Hk. reflexivity.
    + apply String.eqb_neq in E.
      apply IH. rewrite lookup_write_ne by exact E. exact Hk.
Qed.

Lemma instance_props_base_attrs tag trace kvs k v e c :
  k <> "name" ->
  lookup_prop k [("message", Data (VStr tag) true false true);
                 ("stack", Data (VStr trace) true false true);
                 ("_tag", Data (VStr tag) true true true)]
  = Some (Data v true e c) ->
  exists v', lookup_prop k (instance_props tag trace kvs) = Some (Data v' true e c).
Proof.
  intros Hk Hbase. unfold instance_props.
  rewrite lookup_write_ne by exact Hk.
  eapply write_all_attrs, Hbase.
Qed.

Lemma instance_props_name_attrs tag trace kvs :
  lookup_prop "name" (instance_props tag trace kvs)
  = Some (Data (VStr tag) true true true).
Proof.
  unfold instance_props. rewrite lookup_write_eq.
  destruct (write_all_created kvs
              [("message", Data (VStr tag) true false true);
               ("stack", Data (VStr trace) true false true);
               ("_tag", Data (VStr tag) true true true)] "name" eq_refl)
    as [->|(v & ->)]; reflexivity.
Qed.

Lemma enumerable_entries_lookup k v w c ps :
  lookup_prop k ps = Some (Data v w true c) -> In (k, v) (enumerable_entries ps).
Proof.
  induction ps as [|[k0 p0] ps IH]; simpl; [discriminate|].
  destruct (String.eqb k k0) eqn:E.
  - apply String.eqb_eq in E; subst k0. intros [= ->]. left. reflexivity.
  - intros H. specialize (IH H).
    destruct p0 as [v0 w0 [|] c0|]; [right|..]; exact IH.
Qed.

(** With distinct keys, an entry is what a lookup of its key finds. *)
Lemma lookup_prop_of_In k p ps :
  List.NoDup (map fst ps) -> In (k, p) ps -> lookup_prop k ps = Some p.
Proof.
  induction ps as [|[k0 p0] ps IH]; simpl; [intros _ []|].
  intros Hnd. inversion Hnd as [|? ? Hk Hps]; subst.
  intros [[= -> ->]|Hin].
  - rewrite String.eqb_refl. reflexivity.
  - destruct (String.eqb k k0) eqn:E; [|auto].
    apply String.eqb_eq in E; subst k0. exfalso. apply Hk.
    apply in_map_iff. exists (k, p). split; [reflexivity|exact Hin].
Qed.

(** A key that is not enumerable is not among the entries. *)
Lemma hidden_key_not_entry k v w c ps :
  List.NoDup (map fst ps) ->
  lookup_prop k ps = Some (Data v w false c) ->
  ~ In k (map fst (enumerable_entries ps)).
Proof.
  intros Hnd Hk Hin. apply in_map_iff in Hin as ([k' v'] & Hfst & Hin).
  simpl in Hfst; subst k'.
  destruct (enumerable_entries_In _ _ _ Hin) as (w' & c' & Hin').
  rewrite (lookup_prop_of_In _ _ _ Hnd Hin') in Hk. discriminate.
Qed.

(** An inherited property is found one step up the chain. *)
Lemma find_prop_inherited (H : heap) l o k P op p :
  H !! l = Some o -> get_own o k = None -> proto o = Some P ->
  H !! P = Some op -> get_own op k = Some p ->
  find_prop (length H) H l k = Some p.
Proof.
  intros Hl Hnone Hproto HP Hp.
  assert (Hlen : 2 <= length H).
  { apply lookup_lt_Some in Hl as Hl'. apply lookup_lt_Some in HP as HP'.
    destruct (Nat.eq_dec l P) as [->|Hne]; [|lia].
    rewrite Hl in HP. injection HP as <-. congruence. }
  destruct (length H) as [|[|n]]; [lia..|].
  cbn [find_prop]. rewrite Hl, Hnone, Hproto, HP, Hp. reflexivity.
Qed.

(** What [new] returns is the new last object of the heap. *)
Lemma new_returns h V arg trace e h' :
  wf h -> new V arg trace h = Normal e h' ->
  e = length h /\ exists inst, h' = h ++ [inst] /\ this_ok inst.
Proof.
  intros Hwf Hnew.
  destruct (h !! V) as [c|] eqn:HV;
    [|unfold new, construct, construct_on in Hnew; rewrite HV in Hnew; discriminate].
  destruct (okind c) as [| |tag|] eqn:Hk;
    try (unfold new, construct, construct_on in Hnew; rewrite HV in Hnew;
         simpl in Hnew; rewrite Hk in Hnew; discriminate).
  destruct (wf_classes _ Hwf _ _ _ HV Hk) as (P & op & Hpr & _).
  rewrite (new_unfold _ _ _ _ _ HV Hk Hpr) in Hnew. cbn zeta in Hnew.
  pose proof (this_ok_base tag P trace) as Hbase.
  destruct arg as [p|].
  - destruct (_ !! p) as [s|]; [|discriminate].
    pose proof (merge_and_name_last h Hwf tag (enumerable_entries (props s)) _ Hbase) as Hm.
    rewrite Hnew in Hm. destruct Hm as (-> & inst & -> & Hok & _). eauto.
  - pose proof (merge_and_name_last h Hwf tag [] _ Hbase) as Hm.
    rewrite Hnew in Hm. destruct Hm as (-> & inst & -> & Hok & _). eauto.
Qed.

End Attributes.

Lemma wf_http_session : wf http_session.
Proof.
  apply (steps_wf initial_heap); [|exact wf_initial].
  apply (steps_cons (MakeVariant "HttpError")),
    (steps_cons (Literal [("statusCode", VNum 404); ("url", VStr "https://x")])),
    steps_refl.
Qed.

Lemma wf_siblings_session : wf siblings_session.
Proof.
  apply (steps_wf initial_heap); [|exact wf_initial].
  apply (steps_cons (MakeVariant "NotFoundError")),
    (steps_cons (MakeVariant "UnauthorizedError")),
    (steps_cons (Literal [("resource", VStr "user")])),
    steps_refl.
Qed.

(** Lookups after writes depend on the lookup at that key only. *)
Lemma write_all_at kvs : forall (ps ps' : list (string * prop)) k,
  lookup_prop k ps = lookup_prop k ps' ->
  lookup_prop k (write_all kvs ps) = lookup_prop k (write_all kvs ps').
Proof.
  induction kvs as [|[k0 v0] kvs IH]; intros ps ps' k Hk; [exact Hk|].
  simpl. apply IH. rewrite !lookup_write.
  destruct (String.eqb k k0) eqn:E; [|exact Hk].
  apply String.eqb_eq in E; subst k0. rewrite Hk. reflexivity.
Qed.

(** X2. What the property map cannot change about the fields of an
    instance, on any host whose fields are writable, non-enumerable data
    properties: on every instance [new] returns, [message] is
    writable, configurable and not enumerable even when the map supplies it
    (the merge overwrites the value only); the fields the host contributes
    stay not enumerable; [_tag] and [name] are writable, enumerable and
    configurable; and every other copied key (not [message], [_tag],
    [name] or [__proto__], and not a field of the host) is a writable,
    enumerable, configurable own field. *)
Theorem field_attributes (host : list (string * prop)) (h : heap) (V : loc)
    (tag : string) (arg : option loc) (e : loc) (h' : heap) :
  wf h -> variant h V tag -> props_in h arg -> host_ok host = true ->
  new_on host V arg h = Normal e h' ->
  (exists v, own_prop h' e "message" = Some (Data v true false true)) /\
  (forall k, In k (map fst host) ->
             exists p, own_prop h' e k = Some p /\ is_enumerable p = false) /\
  (exists v, own_prop h' e "_tag" = Some (Data v true true true)) /\
  own_prop h' e "name" = Some (Data (VStr tag) true true true) /\
  (forall k v, In (k, v) (entries_of h arg) ->
               ~ In k ["message"; "_tag"; "name"; "__proto__"] ->
               ~ In k (map fst host) ->
               own_prop h' e k = Some (Data v true true true)).
Proof.
  intros Hwf Hv Hin Hok Hnew.
  destruct (new_on_normal _ _ _ _ _ _ _ Hwf Hok Hv Hin Hnew)
    as (inst & -> & -> & Hoki & Hlook).
  unfold own_prop. rewrite last_lookup.
  assert (Hmsg : lookup_prop "message" (base_props host tag)
                 = Some (Data (VStr tag) true false true))
    by (rewrite (base_props_lookup _ _ _ Hok); reflexivity).
  assert (Htag : lookup_prop "_tag" (base_props host tag)
                 = Some (Data (VStr tag) true true true)).
  { rewrite (base_props_lookup _ _ _ Hok).
    rewrite (host_ok_reserved host "_tag" Hok) by (right; left; reflexivity).
    reflexivity. }
  assert (Hname : lookup_prop "name" (base_props host tag) = None).
  { rewrite (base_props_lookup _ _ _ Hok).
    rewrite (host_ok_reserved host "name" Hok) by (right; right; left; reflexivity).
    reflexivity. }
  split; [|split; [|split; [|split]]].
  - rewrite Hlook by discriminate. rewrite lookup_write_ne by discriminate.
    eapply write_all_attrs, Hmsg.
  - intros k Hk.
    assert (Hne : k <> "message" /\ k <> "name" /\ k <> "__proto__").
    { repeat split; intros ->;
        (apply lookup_prop_None in Hk; [exact Hk|]);
        apply host_ok_reserved; try exact Hok; simpl; tauto. }
    destruct Hne as (Hne1 & Hne2 & Hne3).
    destruct (lookup_prop k host) as [p|] eqn:Hp;
      [|apply lookup_prop_None in Hp; contradiction].
    destruct (host_ok_lookup _ _ _ Hok Hp) as (v & c & ->).
    assert (Hbase : lookup_prop k (base_props host tag) = Some (Data v true false c)).
    { rewrite (base_props_lookup _ _ _ Hok), Hp.
      destruct (String.eqb_spec k "message"); [contradiction|reflexivity]. }
    destruct (write_all_attrs (entries_of h arg) _ _ _ _ _ Hbase) as (v' & Hw).
    exists (Data v' true false c). split; [|reflexivity].
    rewrite Hlook by exact Hne3. rewrite lookup_write_ne by exact Hne2. exact Hw.
  - rewrite Hlook by discriminate. rewrite lookup_write_ne by discriminate.
    eapply write_all_attrs, Htag.
  - rewrite Hlook by discriminate. rewrite lookup_write_eq.
    destruct (write_all_created (entries_of h arg) _ _ Hname) as [->|(v & ->)];
      reflexivity.
  - intros k v Hkv Hres Hhost.
    assert (Hne : k <> "message" /\ k <> "_tag" /\ k <> "name" /\ k <> "__proto__")
      by (repeat split; intros ->; apply Hres; simpl; tauto).
    destruct Hne as (Hne1 & Hne2 & Hne3 & Hne4).
    rewrite Hlook by exact Hne4. rewrite lookup_write_ne by exact Hne3.
    rewrite (write_all_entry _ _ _ _ (entries_NoDup h arg Hwf) Hkv).
    rewrite (base_props_lookup _ _ _ Hok).
    apply lookup_prop_None in Hhost. rewrite Hhost.
    destruct (String.eqb_spec k "message"); [contradiction|].
    destruct (String.eqb_spec k "_tag"); [contradiction|].
    reflexivity.
Qed.

Lemma field_attributes_witness :
  (exists v, own_prop (heap_of (new_on positioned_host 5 (Some 6) retagging_session)) 7
               "message" = Some (Data v true false true)) /\
  (forall k, In k (map fst positioned_host) ->
             exists p, own_prop (heap_of (new_on positioned_host 5 (Some 6) retagging_session))
                         7 k = Some p /\ is_enumerable p = false) /\
  (exists v, own_prop (heap_of (new_on positioned_host 5 (Some 6) retagging_session)) 7
               "_tag" = Some (Data v true true true)) /\
  own_prop (heap_of (new_on positioned_host 5 (Some 6) retagging_session)) 7 "name"
  = Some (Data (VStr "HttpError") true true true) /\
  (forall k v, In (k, v) (entries_of retagging_session (Some 6)) ->
               ~ In k ["message"; "_tag"; "name"; "__proto__"] ->
               ~ In k (map fst positioned_host) ->
               own_prop (heap_of (new_on positioned_host 5 (Some 6) retagging_session))
                 7 k = Some (Data v true true true)).
Proof.
  apply (field_attributes positioned_host retagging_session 5 "HttpError" (Some 6) 7
           (heap_of (new_on positioned_host 5 (Some 6) retagging_session))).
  - apply (steps_wf initial_heap); [|exact wf_initial].
    apply (steps_cons (MakeVariant "HttpError")),
      (steps_cons (Literal [("_tag", VStr "Other"); ("message", VStr "not found")])),
      steps_refl.
  - reflexivity.
  - eexists. reflexivity.
  - reflexivity.
  - reflexivity.
Defined.

(** X3. An instance finds its class under [constructor]: built with a
    property map that has neither [constructor] nor [__proto__] among its
    own enumerable keys, the instance has no own [constructor] and reads
    the class itself there, through its prototype object. *)
Theorem instance_constructor_is_class (h : heap) (V : loc) (tag trace : string)
    (arg : option loc) :
  wf h -> variant h V tag -> props_in h arg ->
  carries_proto_key h arg = false ->
  ~ In "constructor" (map fst (entries_of h arg)) ->
  exists e h',
    new V arg trace h = Normal e h' /\
    own_prop h' e "constructor" = None /\
    get h' e "constructor" = VObj V.
Proof.
  intros Hwf Hv Hin Hno Hctor.
  destruct (new_instance h V tag arg trace Hwf Hv Hin Hno)
    as (inst & P & op & Hnew & _ & Hl & Hprops & Hproto & HPo & HP & _).
  destruct (variant_class _ _ _ Hwf Hv)
    as (c & P' & op' & _ & _ & _ & HPo' & _ & HP' & _ & _ & Hback).
  rewrite (prototype_of_extend _ [inst] _ _ HPo') in HPo. injection HPo as ->.
  rewrite (old_lookup _ [inst] _ _ HP') in HP. injection HP as ->.
  assert (Hown : get_own inst "constructor" = None).
  { unfold get_own. rewrite Hprops.
    rewrite instance_props_default by (exact Hctor || discriminate). reflexivity. }
  exists (length h), (h ++ [inst]). split; [exact Hnew|]. split.
  - unfold own_prop. rewrite Hl. exact Hown.
  - unfold get.
    rewrite (find_prop_inherited _ _ _ _ _ _ _ Hl Hown Hproto
               (old_lookup _ [inst] _ _ HP') Hback).
    reflexivity.
Qed.

Lemma instance_constructor_is_class_witness :
  exists e h',
    new 5 (Some 6) "at main" http_session = Normal e h' /\
    own_prop h' e "constructor" = None /\
    get h' e "constructor" = VObj 5.
Proof.
  apply (instance_constructor_is_class http_session 5 "HttpError" "at main" (Some 6)).
  - exact wf_http_session.
  - reflexivity.
  - eexists. reflexivity.
  - reflexivity.
  - simpl. intros [H|[H|[]]]; discriminate.
Defined.

(** X4. The tag belongs to the class, not to its instances: after any
    successful assignment to any field of an instance ([_tag] included),
    [new V()] still builds a new instance whose [_tag], [name] and
    [message] are the tag the factory was called with. *)
Theorem class_tag_survives_mutation (h h1 h2 : heap) (V e : loc) (tag trace trace' : string)
    (arg : option loc) (k : string) (v : value) :
  wf h -> variant h V tag ->
  new V arg trace h = Normal e h1 ->
  put e k v h1 = Normal tt h2 ->
  exists e' h3,
    new V None trace' h2 = Normal e' h3 /\
    e' <> e /\
    get h3 e' "_tag" = VStr tag /\
    get h3 e' "name" = VStr tag /\
    get h3 e' "message" = VStr tag.
Proof.
  intros Hwf Hv Hnew Hput.
  destruct (new_returns _ _ _ _ _ _ Hwf Hnew) as (-> & inst & -> & Hok).
  pose proof (put_last h (wf_objects _ Hwf) inst k v Hok) as Hlast.
  rewrite Hput in Hlast. destruct Hlast as (inst' & -> & Hok' & _).
  assert (Hwf2 : wf (h ++ [inst']))
    by (apply wf_plain; [exact Hwf|apply this_ok_obj_ok, Hok'|apply Hok']).
  pose proof (variant_extend _ [inst'] _ _ Hv) as Hv2.
  destruct (fresh_instance _ _ _ trace' Hwf2 Hv2)
    as (e' & h3 & Hnew' & Ht & Hn & Hm & _).
  exists e', h3. split; [exact Hnew'|]. split; [|auto].
  destruct (new_returns _ _ _ _ _ _ Hwf2 Hnew') as (-> & _).
  rewrite length_app. simpl. lia.
Qed.

Lemma class_tag_survives_mutation_witness :
  exists e' h3,
    new 5 None "later"
      (heap_of (put 7 "_tag" (VStr "Forged") thrown_session)) = Normal e' h3 /\
    e' <> 7 /\
    get h3 e' "_tag" = VStr "HttpError" /\
    get h3 e' "name" = VStr "HttpError" /\
    get h3 e' "message" = VStr "HttpError".
Proof.
  apply (class_tag_survives_mutation http_session thrown_session
           (heap_of (put 7 "_tag" (VStr "Forged") thrown_session))
           5 7 "HttpError" "at main" "later" (Some 6) "_tag" (VStr "Forged")).
  - exact wf_http_session.
  - reflexivity.
  - reflexivity.
  - reflexivity.
Defined.

(** X5. Passing an error as the property map copies its discriminant:
    for an instance [e] of any class of the factory, every instance that
    [new W(e)] returns has the [_tag] of [e], not the tag of [W], while its
    [name] and its [message] are the tag of [W] (the [message] of [e] is
    not enumerable and is not copied). *)
Theorem wrapping_copies_discriminant (h h1 : heap) (V W e : loc)
    (tagV tagW trace trace' : string) (arg : option loc) :
  wf h -> variant h V tagV -> variant h W tagW -> props_in h arg ->
  new V arg trace h = Normal e h1 ->
  (carries_proto_key h1 (Some e) = false ->
   exists w h2, new W (Some e) trace' h1 = Normal w h2) /\
  forall w h2, new W (Some e) trace' h1 = Normal w h2 ->
    get h2 w "_tag" = get h1 e "_tag" /\
    get h2 w "name" = VStr tagW /\
    get h2 w "message" = VStr tagW.
Proof.
  intros Hwf HvV HvW Hin Hnew.
  assert (Hwf1 : wf h1).
  { pose proof (new_wf h V arg trace Hwf) as H. rewrite Hnew in H. exact H. }
  destruct (new_normal _ _ _ _ _ _ _ Hwf HvV Hin Hnew) as (inst & -> & -> & Hok & Hlook).
  pose proof (variant_extend _ [inst] _ _ HvW) as HvW1.
  assert (Hin1 : props_in (h ++ [inst]) (Some (length h)))
    by (exists inst; apply last_lookup).
  assert (Hentries : entries_of (h ++ [inst]) (Some (length h))
                     = enumerable_entries (props inst))
    by (unfold entries_of; rewrite last_lookup; reflexivity).
  split.
  - intros Hno.
    destruct (new_total _ W tagW _ trace' Hwf1 HvW1 Hin1 Hno) as (H & HnewW). eauto.
  - intros w h2 HnewW.
    destruct (new_normal _ _ _ _ _ _ _ Hwf1 HvW1 Hin1 HnewW)
      as (instw & -> & -> & Hokw & Hlookw).
    rewrite Hentries in Hlookw.
    pose proof (enumerable_entries_NoDup _ (this_keys _ Hok)) as Hnd.
    destruct (instance_props_base_attrs tagV trace (entries_of h arg) "_tag" (VStr tagV)
                true true) as (v & Htag); [discriminate|reflexivity|].
    destruct (instance_props_base_attrs tagV trace (entries_of h arg) "message" (VStr tagV)
                false true) as (m & Hmsg); [discriminate|reflexivity|].
    rewrite <- Hlook in Htag, Hmsg by discriminate.
    split; [|split].
    + destruct (own_value_last h inst "_tag" _ _ _ _ Htag) as [_ ->].
      destruct (instance_props_entry tagW trace' _ "_tag" v Hnd
                  (enumerable_entries_lookup _ _ _ _ _ Htag)) as (e1 & c1 & Hk);
        [discriminate|].
      eapply own_value_last. rewrite Hlookw by discriminate. exact Hk.
    + eapply own_value_last. rewrite Hlookw by discriminate.
      apply instance_props_name_attrs.
    + eapply own_value_last. rewrite Hlookw by discriminate.
      rewrite instance_props_default; [reflexivity| |discriminate].
      eapply hidden_key_not_entry; [exact (this_keys _ Hok)|exact Hmsg].
Qed.

Lemma wrapping_copies_discriminant_witness :
  (carries_proto_key caught_session (Some 9) = false ->
   exists w h2, new 7 (Some 9) "rethrown" caught_session = Normal w h2) /\
  forall w h2, new 7 (Some 9) "rethrown" caught_session = Normal w h2 ->
    get h2 w "_tag" = get caught_session 9 "_tag" /\
    get h2 w "name" = VStr "UnauthorizedError" /\
    get h2 w "message" = VStr "UnauthorizedError".
Proof.
  apply (wrapping_copies_discriminant siblings_session caught_session 5 7 9
           "NotFoundError" "UnauthorizedError" "at main" "rethrown" (Some 8)).
  - exact wf_siblings_session.
  - reflexivity.
  - reflexivity.
  - eexists. reflexivity.
  - reflexivity.
Defined.

(** * Client subclasses *)

Section Derived.

(** The constructor run for another [new.target]: the instance gets the
    prototype object of [new.target]. *)
Lemma construct_unfold h V c tag nt cn PC arg trace :
  h !! V = Some c -> okind c = TaggedClass tag ->
  h !! nt = Some cn ->
  get_own cn "prototype" = Some (Data (VObj PC) false false false) ->
  construct V nt arg trace h
  = let h1 := h ++ [base_instance PC tag trace] in
    match arg with
    | None => merge_and_name (length h) tag [] h1
    | Some p =>
        match h1 !! p with
        | Some s => merge_and_name (length h) tag (enumerable_entries (props s)) h1
        | None => Throw TypeError h1
        end
    end.
Proof.
  intros HV Hkind HN HNp.
  unfold construct, construct_on, trace_only.
  rewrite HV. cbn [fmap option_fmap option_map].
  rewrite Hkind.
  unfold bind at 1. unfold Error_construct, bind at 1, Get at 1.
  rewrite (get_own_data _ _ _ _ _ _ _ _ HN HNp).
  unfold alloc.
  unfold bind at 1. unfold create_data_property.
  rewrite last_lookup. cbn [get_own props lookup_prop String.eqb Ascii.eqb Bool.eqb].
  rewrite last_insert.
  change (set_own _ "_tag" _) with (base_instance PC tag trace).
  unfold bind at 1. unfold Get at 1.
  rewrite (get_own_data _ _ _ _ _ _ _ _
             (old_lookup _ [base_instance PC tag trace] _ _ HN) HNp).
  unfold bind at 1. unfold Object_setPrototypeOf, ordinary_set_prototype_of.
  rewrite last_lookup. cbn [proto base_instance same_proto].
  rewrite Nat.eqb_refl.
  destruct arg as [p|]; cbn zeta.
  - unfold bind at 1. unfold Object_assign.
    destruct ((h ++ [base_instance PC tag trace]) !! p) as [s|]; reflexivity.
  - reflexivity.
Qed.

Lemma subclass_extend h ext C V : subclass h C V -> subclass (h ++ ext) C V.
Proof.
  intros (c & PC & opc & P & HC & Hk & Hpar & Hpr & HPC & Hopc & HPo & Hset & Hback).
  exists c, PC, opc, P. repeat split; try assumption.
  - apply old_lookup, HC.
  - apply old_lookup, HPC.
  - apply prototype_of_extend, HPo.
Qed.

Lemma subclass_steps h h' C V :
  wf h -> steps h h' -> subclass h C V -> subclass h' C V.
Proof.
  intros Hwf Hsteps Hs. destruct (steps_extends _ _ Hsteps Hwf) as (ext & ->).
  apply subclass_extend, Hs.
Qed.

(** Declaring a subclass of a class of the factory. *)
Lemma class_extends_subclass h V tag name :
  wf h -> variant h V tag ->
  exists C h',
    class_extends V name h = Normal C h' /\
    wf h' /\ variant h' V tag /\ subclass h' C V /\ length h < C.
Proof.
  intros Hwf Hv.
  destruct (variant_class _ _ _ Hwf Hv)
    as (c & P & op & HV & Hk & Hpr & HPo & Hlt & HP & Hop & Hset & Hback).
  unfold class_extends. rewrite HV. cbn [fmap option_fmap option_map].
  rewrite Hk, (get_own_data _ _ _ _ _ _ _ _ HV Hpr).
  eexists _, _. split; [reflexivity|].
  assert (Hwf' : wf (h ++ [mkObj (Some P) Plain
                              [("constructor", Data (VObj (S (length h))) true false true)];
                           mkObj (Some V) Subclass
                              [("length", Data (VNum 0) false false true);
                               ("name", Data (VStr name) false false true);
                               ("prototype", Data (VObj (length h)) false false false)]])).
  { apply wf_extend; [exact Hwf| |].
    - intros o [<-|[<-|[]]]; (split;
        [unfold own_keys; simpl; repeat constructor; simpl; intuition discriminate
        |intros k; unfold get_own; simpl;
         repeat (destruct (String.eqb k _); [discriminate|]); discriminate]).
    - intros X o tg HX Hge Hkind.
      apply lookup_app_Some in HX as [HX|[_ HX]];
        [apply lookup_lt_Some in HX; lia|].
      destruct (X - length h) as [|[|n]]; simpl in HX;
        [injection HX as <-|injection HX as <-|]; discriminate. }
  split; [exact Hwf'|]. split; [apply variant_extend, Hv|]. split; [|lia].
  eexists _, (length h), _, P.
  split; [rewrite lookup_app_r by lia;
          rewrite Nat.sub_succ_l, Nat.sub_diag by lia; reflexivity|].
  split; [reflexivity|]. split; [reflexivity|]. split; [reflexivity|].
  split; [apply list_lookup_middle; reflexivity|].
  split; [reflexivity|]. split; [apply prototype_of_extend, HPo|].
  split; [|reflexivity].
  intros k Hne. unfold writable_or_absent, get_own; simpl.
  destruct (String.eqb k "constructor"); reflexivity.
Qed.

(** [new C(props)] on a direct subclass is the parent's constructor run
    for [new.target = C]. *)
Lemma new_class_subclass h C V tag arg trace :
  wf h -> variant h V tag -> subclass h C V ->
  new_class C arg trace h = construct V C arg trace h.
Proof.
  intros Hwf Hv (c & PC & opc & P & HC & Hk & Hpar & _).
  unfold variant in Hv. destruct (h !! V) as [cv|] eqn:HV; [|discriminate].
  injection Hv as Hkv.
  pose proof (wf_length _ Hwf) as Hlen. unfold ErrorCtor in Hlen.
  unfold new_class, new_class_on. destruct (length h) as [|[|n]]; [lia..|].
  cbn [construct_from]. rewrite HC, Hk, Hpar, HV, Hkv. reflexivity.
Qed.

(** Writes pass along the chain of an instance of a subclass. *)
Lemma subclass_chain_passes h C V tag o k fuel :
  wf h -> variant h V tag -> subclass h C V ->
  forall PC, prototype_of h C = Some PC ->
  this_ok o -> proto o = Some PC -> k <> "__proto__" ->
  passes (find_prop fuel (h ++ [o]) (length h) k).
Proof.
  intros Hwf Hv (c & PC' & opc & P & HC & _ & _ & Hpr & HPC & Hopc & HPo & Hset & _)
         PC HPC' Hok Hproto Hk.
  assert (PC = PC') as ->.
  { unfold prototype_of, own_value, own_prop in HPC'. rewrite HC, Hpr in HPC'.
    congruence. }
  destruct (variant_class _ _ _ Hwf Hv)
    as (cv & P' & op & _ & _ & _ & HPo' & _ & HP & Hop & HsetP & _).
  rewrite HPo in HPo'. injection HPo' as <-.
  destruct (wf_object_prototype _ Hwf) as (o0 & H0 & Hp0 & Hs0).
  destruct (wf_error_prototype _ Hwf) as (o1 & H1 & Hp1 & Hs1).
  apply (find_prop_passes _ _
           (fun l => l = length h \/ l = PC' \/ l = P \/
                     l = ErrorPrototype \/ l = ObjectPrototype));
    [|left; reflexivity].
  intros l o' [->|[->|[->|[->| ->]]]] Hl.
  - rewrite last_lookup in Hl. injection Hl as <-.
    split; [apply writable_passes, Hok|]. intros q Hq. right. left. congruence.
  - rewrite (old_lookup _ _ _ _ HPC) in Hl. injection Hl as <-.
    split; [apply settable_passes; assumption|].
    intros q Hq. right. right. left. congruence.
  - rewrite (old_lookup _ _ _ _ HP) in Hl. injection Hl as <-.
    split; [apply settable_passes; assumption|].
    intros q Hq. right. right. right. left. congruence.
  - rewrite (old_lookup _ _ _ _ H1) in Hl. injection Hl as <-.
    split; [apply settable_passes; assumption|].
    intros q Hq. right. right. right. right. congruence.
  - rewrite (old_lookup _ _ _ _ H0) in Hl. injection Hl as <-.
    split; [apply settable_passes; assumption|].
    intros q Hq. congruence.
Qed.

End Derived.

Section DeclaredErrors.

Lemma instance_of_chain (H : heap) l X cx PX w e c :
  H !! X = Some cx -> okind cx <> Plain ->
  get_own cx "prototype" = Some (Data (VObj PX) w e c) ->
  instance_of H (VObj l) X
  = Some (existsb (Nat.eqb PX) (proto_chain (length H) H l)).
Proof.
  intros HX Hk Hpr. unfold instance_of. rewrite HX.
  rewrite (get_own_data _ _ _ _ _ _ _ _ HX Hpr).
  destruct (okind cx); [contradiction|reflexivity..].
Qed.

(** The chain of an instance of a direct subclass. *)
Lemma subclass_instance_chain (H : heap) l inst PC opc P op :
  wf H -> H !! l = Some inst -> proto inst = Some PC ->
  H !! PC = Some opc -> proto opc = Some P ->
  H !! P = Some op -> proto op = Some ErrorPrototype -> ErrorCtor < P ->
  proto_chain (length H) H l = [PC; P; ErrorPrototype; ObjectPrototype].
Proof.
  intros Hwf Hl Hp HPC Hopc HP Hop Hlt.
  destruct (wf_object_prototype _ Hwf) as (o0 & H0 & Hp0 & _).
  destruct (wf_error_prototype _ Hwf) as (o1 & H1 & Hp1 & _).
  apply lookup_lt_Some in HP as Hlen. unfold ErrorCtor in Hlt.
  destruct (length H) as [|[|[|[|f]]]]; [lia..|].
  cbn [proto_chain]. rewrite Hl, Hp, HPC, Hopc, HP, Hop, H1, Hp1.
  destruct f; [reflexivity|]. cbn [proto_chain]. rewrite H0, Hp0. reflexivity.
Qed.

(** An instance of a direct subclass, built without an own enumerable
    [__proto__]: the own properties are those of a direct instance, the
    prototype is the prototype object of the subclass. *)
Lemma subclass_instance h C V tag arg trace :
  wf h -> variant h V tag -> subclass h C V -> props_in h arg ->
  carries_proto_key h arg = false ->
  exists inst PC,
    new_class C arg trace h = Normal (length h) (h ++ [inst]) /\
    wf (h ++ [inst]) /\
    props inst = instance_props tag trace (entries_of h arg) /\
    proto inst = Some PC /\ prototype_of h C = Some PC.
Proof.
  intros Hwf Hv Hs Hin Hno.
  rewrite (new_class_subclass h C V tag arg trace Hwf Hv Hs).
  pose proof Hs as (c & PC & opc & P & HC & Hk & Hpar & Hpr & HPC & Hopc & HPo & Hset & _).
  assert (HPoC : prototype_of h C = Some PC)
    by (unfold prototype_of, own_value, own_prop; rewrite HC, Hpr; reflexivity).
  pose proof Hv as Hv'. unfold variant in Hv'.
  destruct (h !! V) as [cv|] eqn:HV; [|discriminate]. injection Hv' as Hkv.
  rewrite (construct_unfold _ _ _ _ _ _ _ _ _ HV Hkv HC Hpr). cbn zeta.
  pose proof (this_ok_base tag PC trace) as Hbase.
  apply carries_proto_key_false in Hno.
  assert (Hgen : forall kvs, kvs = entries_of h arg ->
            exists inst PC0,
              merge_and_name (length h) tag kvs (h ++ [base_instance PC tag trace])
              = Normal (length h) (h ++ [inst]) /\
              wf (h ++ [inst]) /\
              props inst = instance_props tag trace (entries_of h arg) /\
              proto inst = Some PC0 /\ prototype_of h C = Some PC0).
  { intros kvs ->.
    destruct (merge_and_name_on h PC Hwf
                (fun o k fuel => subclass_chain_passes h C V tag o k fuel Hwf Hv Hs PC HPoC)
                tag (entries_of h arg) _ Hbase eq_refl Hno)
      as (inst & Hm & Hok & Hproto & Hprops).
    exists inst, PC. split; [exact Hm|].
    split; [apply wf_plain; [exact Hwf|apply this_ok_obj_ok, Hok|apply Hok]|].
    auto. }
  destruct arg as [p|].
  - destruct Hin as (po & Hpo). rewrite (old_lookup _ _ _ _ Hpo).
    apply Hgen. unfold entries_of. rewrite Hpo. reflexivity.
  - apply Hgen. reflexivity.
Qed.

(** The classes an instance of a direct subclass belongs to. *)
Lemma subclass_instance_of (H : heap) l inst C V tag PC :
  wf H -> variant H V tag -> subclass H C V ->
  H !! l = Some inst -> proto inst = Some PC -> prototype_of H C = Some PC ->
  exists P,
    prototype_of H V = Some P /\ PC <> P /\ ErrorCtor < P /\
    (exists opc, H !! PC = Some opc /\ proto opc = Some P /\
                 get_own opc "constructor" = Some (Data (VObj C) true false true)) /\
    proto_chain (length H) H l = [PC; P; ErrorPrototype; ObjectPrototype].
Proof.
  intros Hwf Hv (c & PC' & opc & P & HC & Hk & Hpar & Hpr & HPC & Hopc & HPo & Hset & Hback)
         Hl Hproto HPoC.
  assert (PC = PC') as ->.
  { unfold prototype_of, own_value, own_prop in HPoC. rewrite HC, Hpr in HPoC.
    congruence. }
  destruct (variant_class _ _ _ Hwf Hv)
    as (cv & P' & op & _ & _ & _ & HPo' & Hlt & HP & Hop & _).
  rewrite HPo in HPo'. injection HPo' as <-.
  exists P. split; [exact HPo|]. split; [|split; [exact Hlt|split]].
  - intros ->. rewrite HPC in HP. injection HP as ->.
    rewrite Hopc in Hop. injection Hop as ->. unfold ErrorCtor, ErrorPrototype in Hlt. lia.
  - exists opc. auto.
  - eapply subclass_instance_chain; eassumption.
Qed.

End DeclaredErrors.

(** [new C(props)] on a direct subclass, on any host. *)
Lemma new_class_on_subclass host h C V tag arg :
  wf h -> variant h V tag -> subclass h C V ->
  new_class_on host C arg h = construct_on host V C arg h.
Proof.
  intros Hwf Hv (c & PC & opc & P & HC & Hk & Hpar & _).
  unfold variant in Hv. destruct (h !! V) as [cv|] eqn:HV; [|discriminate].
  injection Hv as Hkv.
  pose proof (wf_length _ Hwf) as Hlen. unfold ErrorCtor in Hlen.
  unfold new_class_on. destruct (length h) as [|[|n]]; [lia..|].
  cbn [construct_from]. rewrite HC, Hk, Hpar, HV, Hkv. reflexivity.
Qed.

Lemma subclass_instance_on host h C V tag arg :
  wf h -> host_ok host = true -> variant h V tag -> subclass h C V ->
  props_in h arg -> carries_proto_key h arg = false ->
  exists inst PC,
    new_class_on host C arg h = Normal (length h) (h ++ [inst]) /\
    wf (h ++ [inst]) /\
    props inst = write_prop "name" (VStr tag)
                   (write_all (entries_of h arg) (base_props host tag)) /\
    proto inst = Some PC /\ prototype_of h C = Some PC.
Proof.
  intros Hwf Hok Hv Hs Hin Hno.
  rewrite (new_class_on_subclass host h C V tag arg Hwf Hv Hs).
  pose proof Hs as (c & PC & opc & P & HC & Hk & Hpar & Hpr & _).
  assert (HPoC : prototype_of h C = Some PC)
    by (unfold prototype_of, own_value, own_prop; rewrite HC, Hpr; reflexivity).
  pose proof Hv as Hv'. unfold variant in Hv'.
  destruct (h !! V) as [cv|] eqn:HV; [|discriminate]. injection Hv' as Hkv.
  destruct (construct_on_result host h V cv tag C c PC arg Hwf Hok HV Hkv HC Hpr
              (fun o k fuel => subclass_chain_passes h C V tag o k fuel Hwf Hv Hs PC HPoC)
              Hin Hno)
    as (inst & Hnew & Hoki & Hproto & Hprops).
  exists inst, PC. split; [exact Hnew|].
  split; [apply wf_plain; [exact Hwf|apply this_ok_obj_ok, Hoki|apply Hoki]|].
  auto.
Qed.

(** X6. A declared error [class C extends TaggedError(tag) {}] builds
    what the class of the factory builds, under its own prototype: for a
    property map without an own enumerable [__proto__], [new C(props)] and
    [new V(props)], each with whatever its host contributes at its own
    site (writable, non-enumerable data properties), return instances with the same own property at every key that is
    not a field of the host ([message], [_tag], [name] and the copied keys
    among them); the instance of [C] is an instance of [C], of [V] and of
    [Error], and the direct instance of [V] is not an instance of [C]. *)
Theorem declared_error_instance (host host0 : list (string * prop)) (h h1 h2 : heap)
    (V C : loc) (tag name : string) (arg : option loc) :
  wf h -> variant h V tag ->
  class_extends V name h = Normal C h1 -> steps h1 h2 ->
  props_in h2 arg -> carries_proto_key h2 arg = false ->
  host_ok host = true -> host_ok host0 = true ->
  exists e h3 e0 h0,
    new_class_on host C arg h2 = Normal e h3 /\
    new_on host0 V arg h2 = Normal e0 h0 /\
    (forall k, ~ In k (map fst host) -> ~ In k (map fst host0) ->
               own_prop h3 e k = own_prop h0 e0 k) /\
    instance_of h3 (VObj e) C = Some true /\
    instance_of h3 (VObj e) V = Some true /\
    instance_of h3 (VObj e) ErrorCtor = Some true /\
    instance_of h0 (VObj e0) C = Some false.
Proof.
  intros Hwf Hv Hext Hsteps Hin Hno Hok Hok0.
  destruct (class_extends_subclass h V tag name Hwf Hv)
    as (C' & h1' & Hext' & Hwf1 & Hv1 & Hs1 & _).
  rewrite Hext in Hext'. injection Hext' as <- <-.
  pose proof (steps_wf _ _ Hsteps Hwf1) as Hwf2.
  pose proof (variant_steps _ _ _ _ Hwf1 Hsteps Hv1) as Hv2.
  pose proof (subclass_steps _ _ _ _ Hwf1 Hsteps Hs1) as Hs2.
  destruct (subclass_instance_on host h2 C V tag arg Hwf2 Hok Hv2 Hs2 Hin Hno)
    as (inst & PC & Hnew & Hwf3 & Hprops & Hproto & HPoC).
  destruct (new_on_instance host0 h2 V tag arg Hwf2 Hok0 Hv2 Hin Hno)
    as (inst0 & P0 & op0 & Hnew0 & Hwf0 & Hl0 & Hprops0 & Hproto0 & HPo0 & HP0 & Hop0).
  exists (length h2), (h2 ++ [inst]), (length h2), (h2 ++ [inst0]).
  split; [exact Hnew|]. split; [exact Hnew0|]. split.
  { intros k Hk Hk0. unfold own_prop, get_own. rewrite !last_lookup, Hprops, Hprops0.
    apply lookup_prop_None in Hk, Hk0.
    assert (Hbase : forall k', (k' = k \/ k' = "name") ->
              lookup_prop k' (base_props host tag) = lookup_prop k' (base_props host0 tag)).
    { intros k' [-> | ->].
      - rewrite !base_props_lookup, Hk, Hk0 by assumption. reflexivity.
      - rewrite !base_props_lookup by assumption.
        rewrite (host_ok_reserved host "name" Hok),
                (host_ok_reserved host0 "name" Hok0) by (simpl; tauto).
        reflexivity. }
    rewrite !lookup_write.
    rewrite (write_all_at _ _ _ "name" (Hbase "name" (or_intror eq_refl))).
    rewrite (write_all_at _ _ _ k (Hbase k (or_introl eq_refl))).
    reflexivity. }
  pose proof (variant_extend _ [inst] _ _ Hv2) as Hv3.
  pose proof (subclass_extend _ [inst] _ _ Hs2) as Hs3.
  destruct (subclass_instance_of _ _ _ _ _ _ _ Hwf3 Hv3 Hs3 (last_lookup h2 inst) Hproto
              (prototype_of_extend _ [inst] _ _ HPoC))
    as (P & HPo & Hne & Hlt & _ & Hchain).
  destruct Hs3 as (c & PC' & opc & P' & HC & Hk & _ & Hpr & _).
  assert (PC' = PC) as ->.
  { pose proof (prototype_of_extend _ [inst] _ _ HPoC) as HPoC3.
    unfold prototype_of, own_value, own_prop in HPoC3. rewrite HC, Hpr in HPoC3.
    congruence. }
  destruct (variant_class _ _ _ Hwf3 Hv3) as (cv & P'' & opv & HV & Hkv & Hprv & HPo'' & _).
  rewrite HPo in HPo''. injection HPo'' as <-.
  destruct (wf_error _ Hwf3) as (o2 & H2 & Hk2 & Hpr2).
  split; [|split; [|split]].
  - rewrite (instance_of_chain _ _ _ _ _ _ _ _ HC ltac:(congruence) Hpr), Hchain.
    cbn [existsb]. rewrite Nat.eqb_refl. reflexivity.
  - rewrite (instance_of_chain _ _ _ _ _ _ _ _ HV ltac:(congruence) Hprv), Hchain.
    cbn [existsb]. rewrite Nat.eqb_refl, orb_true_r. reflexivity.
  - rewrite (instance_of_chain _ _ _ _ _ _ _ _ H2 ltac:(congruence) Hpr2), Hchain.
    cbn [existsb]. rewrite Nat.eqb_refl, !orb_true_r. reflexivity.
  - pose proof (subclass_extend _ [inst0] _ _ Hs2) as Hs0.
    destruct Hs0 as (c0 & PC0 & opc0 & Pp & HC0 & Hk0 & _ & Hpr0 & HPC0 & Hopc0 & HPp & _).
    rewrite (instance_of_chain _ _ _ _ _ _ _ _ HC0 ltac:(congruence) Hpr0).
    rewrite (instance_chain _ _ _ _ _ Hwf0 Hl0 Hproto0 HP0 Hop0).
    rewrite HPo0 in HPp. injection HPp as <-.
    assert (Hlt0 : ErrorCtor < P0).
    { destruct (variant_class _ _ _ Hwf0 (variant_extend _ [inst0] _ _ Hv2))
        as (? & Pq & ? & _ & _ & _ & HPq & Hq & _).
      rewrite HPo0 in HPq. injection HPq as <-. exact Hq. }
    destruct (wf_object_prototype _ Hwf0) as (o0 & H0 & Hp0 & _).
    destruct (wf_error_prototype _ Hwf0) as (o1 & H1 & Hp1 & _).
    unfold ErrorCtor, ErrorPrototype, ObjectPrototype in *.
    cbn [existsb].
    destruct (Nat.eqb_spec PC0 P0) as [->|_].
    { rewrite HPC0 in HP0. injection HP0 as ->. rewrite Hopc0 in Hop0.
      injection Hop0 as ->. lia. }
    destruct (Nat.eqb_spec PC0 1) as [->|_].
    { rewrite HPC0 in H1. injection H1 as ->. rewrite Hopc0 in Hp1.
      injection Hp1 as ->. lia. }
    destruct (Nat.eqb_spec PC0 0) as [->|_].
    { rewrite HPC0 in H0. injection H0 as ->. congruence. }
    reflexivity.
Qed.

(** Two sites, two traces and two positions: the subclass instance is
    built on [positioned_host], the direct one on a host with another
    trace and nothing else. *)
Lemma declared_error_instance_witness :
  exists e h3 e0 h0,
    new_class_on positioned_host 8 (Some 6) readme_session = Normal e h3 /\
    new_on (trace_only "at other") 5 (Some 6) readme_session = Normal e0 h0 /\
    (forall k, ~ In k (map fst positioned_host) ->
               ~ In k (map fst (trace_only "at other")) ->
               own_prop h3 e k = own_prop h0 e0 k) /\
    instance_of h3 (VObj e) 8 = Some true /\
    instance_of h3 (VObj e) 5 = Some true /\
    instance_of h3 (VObj e) ErrorCtor = Some true /\
    instance_of h0 (VObj e0) 8 = Some false.
Proof.
  apply (declared_error_instance positioned_host (trace_only "at other")
           http_session readme_session readme_session
           5 8 "HttpError" "HttpError" (Some 6)).
  - exact wf_http_session.
  - reflexivity.
  - reflexivity.
  - apply steps_refl.
  - eexists. reflexivity.
  - reflexivity.
  - reflexivity.
  - reflexivity.
Defined.

(** X7. Declared errors are mutually exclusive: for two different
    subclasses [C1] and [C2] of classes of the factory (of the same class
    or not), an instance of [C1] built without an own enumerable
    [__proto__] is an instance of [C1], is not an instance of [C2], and is
    not an instance of the parent of [C2] unless that is its own parent. *)
Theorem declared_errors_exclusive (h : heap) (V1 V2 C1 C2 : loc)
    (tag1 tag2 trace : string) (arg : option loc) :
  wf h -> variant h V1 tag1 -> variant h V2 tag2 ->
  subclass h C1 V1 -> subclass h C2 V2 -> C1 <> C2 ->
  props_in h arg -> carries_proto_key h arg = false ->
  exists e h',
    new_class C1 arg trace h = Normal e h' /\
    instance_of h' (VObj e) C1 = Some true /\
    instance_of h' (VObj e) C2 = Some false /\
    (V1 <> V2 -> instance_of h' (VObj e) V2 = Some false).
Proof.
  intros Hwf Hv1 Hv2 Hs1 Hs2 Hne Hin Hno.
  destruct (subclass_instance h C1 V1 tag1 arg trace Hwf Hv1 Hs1 Hin Hno)
    as (inst & PC1 & Hnew & Hwf' & _ & Hproto & HPoC).
  exists (length h), (h ++ [inst]). split; [exact Hnew|].
  pose proof (variant_extend _ [inst] _ _ Hv1) as Hv1'.
  pose proof (variant_extend _ [inst] _ _ Hv2) as Hv2'.
  pose proof (subclass_extend _ [inst] _ _ Hs1) as Hs1'.
  pose proof (subclass_extend _ [inst] _ _ Hs2) as Hs2'.
  destruct (subclass_instance_of _ _ _ _ _ _ _ Hwf' Hv1' Hs1' (last_lookup h inst) Hproto
              (prototype_of_extend _ [inst] _ _ HPoC))
    as (P1 & HPo1 & Hne1 & Hlt1 & (opc1 & HPC1 & Hopc1 & Hback1) & Hchain).
  destruct (variant_class _ _ _ Hwf' Hv1')
    as (cv1 & P1' & op1 & _ & _ & _ & HPo1' & _ & HP1 & Hop1 & _).
  rewrite HPo1 in HPo1'. injection HPo1' as <-.
  destruct (variant_class _ _ _ Hwf' Hv2')
    as (cv2 & P2 & op2 & HV2 & Hkv2 & Hprv2 & HPo2 & Hlt2 & HP2 & Hop2 & _).
  destruct (wf_object_prototype _ Hwf') as (o0 & H0 & Hp0 & _).
  destruct (wf_error_prototype _ Hwf') as (o1 & H1 & Hp1 & _).
  unfold ErrorCtor, ErrorPrototype, ObjectPrototype in *.
  split; [|split].
  - destruct Hs1' as (c1 & PC1' & ? & ? & HC1 & Hk1 & _ & Hpr1 & _).
    assert (PC1' = PC1) as ->.
    { pose proof (prototype_of_extend _ [inst] _ _ HPoC) as HPoC'.
      unfold prototype_of, own_value, own_prop in HPoC'. rewrite HC1, Hpr1 in HPoC'.
      congruence. }
    rewrite (instance_of_chain _ _ _ _ _ _ _ _ HC1 ltac:(congruence) Hpr1), Hchain.
    cbn [existsb]. rewrite Nat.eqb_refl. reflexivity.
  - destruct Hs2' as (c2 & PC2 & opc2 & P2' & HC2 & Hk2 & _ & Hpr2 & HPC2 & Hopc2 & HPo2'
                       & _ & Hback2).
    rewrite HPo2 in HPo2'. injection HPo2' as <-.
    rewrite (instance_of_chain _ _ _ _ _ _ _ _ HC2 ltac:(congruence) Hpr2), Hchain.
    cbn [existsb].
    destruct (Nat.eqb_spec PC2 PC1) as [->|_].
    { rewrite HPC1 in HPC2. injection HPC2 as ->. congruence. }
    destruct (Nat.eqb_spec PC2 P1) as [->|_].
    { rewrite HPC2 in HP1. injection HP1 as ->. rewrite Hopc2 in Hop1.
      injection Hop1 as ->. lia. }
    destruct (Nat.eqb_spec PC2 1) as [->|_].
    { rewrite HPC2 in H1. injection H1 as ->. rewrite Hopc2 in Hp1.
      injection Hp1 as ->. lia. }
    destruct (Nat.eqb_spec PC2 0) as [->|_].
    { rewrite HPC2 in H0. injection H0 as ->. congruence. }
    reflexivity.
  - intros HneV.
    rewrite (instance_of_chain _ _ _ _ _ _ _ _ HV2 ltac:(congruence) Hprv2), Hchain.
    cbn [existsb].
    destruct (Nat.eqb_spec P2 PC1) as [->|_].
    { rewrite HPC1 in HP2. injection HP2 as ->. rewrite Hopc1 in Hop2.
      injection Hop2 as ->. lia. }
    destruct (Nat.eqb_spec P2 P1) as [->|_].
    { exfalso. apply HneV.
      eapply (prototype_of_inj (h ++ [inst]) V1 V2); eassumption. }
    destruct (Nat.eqb_spec P2 1) as [->|_]; [lia|].
    destruct (Nat.eqb_spec P2 0) as [->|_]; [lia|].
    reflexivity.
Qed.

Lemma Normal_inj {A} (a b : A) (h g : heap) :
  Normal a h = Normal b g -> a = b /\ h = g.
Proof. intros [= -> ->]. auto. Qed.

(** The declarations of [declared_session] are what they are meant to be. *)
Lemma declared_session_ok :
  wf declared_session /\
  subclass declared_session 10 5 /\ subclass declared_session 12 7.
Proof.
  destruct (class_extends_subclass siblings_session 5 "NotFoundError" "NotFoundError"
              wf_siblings_session eq_refl)
    as (C1 & g1 & Hext1 & Hwf1 & Hv1 & Hs1 & _).
  assert (Hrun1 : class_extends 5 "NotFoundError" siblings_session
                  = Normal 10 (heap_of (class_extends 5 "NotFoundError" siblings_session)))
    by reflexivity.
  rewrite Hrun1 in Hext1. apply Normal_inj in Hext1 as [? ?]. subst C1 g1.
  destruct (class_extends_subclass _ 7 "UnauthorizedError" "UnauthorizedError"
              Hwf1 eq_refl)
    as (C2 & g2 & Hext2 & Hwf2 & Hv2 & Hs2 & _).
  assert (Hrun2 : class_extends 7 "UnauthorizedError"
                    (heap_of (class_extends 5 "NotFoundError" siblings_session))
                  = Normal 12 declared_session)
    by reflexivity.
  rewrite Hrun2 in Hext2. apply Normal_inj in Hext2 as [? ?]. subst C2 g2.
  split; [exact Hwf2|]. split; [|exact Hs2].
  change declared_session with
    (heap_of (class_extends 5 "NotFoundError" siblings_session)
     ++ skipn 11 declared_session).
  apply subclass_extend, Hs1.
Qed.

Lemma declared_errors_exclusive_witness :
  exists e h',
    new_class 10 (Some 8) "at main" declared_session = Normal e h' /\
    instance_of h' (VObj e) 10 = Some true /\
    instance_of h' (VObj e) 12 = Some false /\
    (5 <> 7 -> instance_of h' (VObj e) 7 = Some false).
Proof.
  apply (declared_errors_exclusive declared_session 5 7 10 12
           "NotFoundError" "UnauthorizedError" "at main" (Some 8)).
  - exact (proj1 declared_session_ok).
  - reflexivity.
  - reflexivity.
  - exact (proj1 (proj2 declared_session_ok)).
  - exact (proj2 (proj2 declared_session_ok)).
  - discriminate.
  - eexists. reflexivity.
  - reflexivity.
Defined.
